(** * UI_RENDER: the shared utilities and the delegated event engine

    A shallow embedding of [src/utils/utils.js] (the later of the two
    revisions kept in that file, the one with [RULES.eventClass] and
    [enableNearestHover]) and of the data-preparation and root-lookup
    steps of [PanelRender.render], [ListView.init] and [ListView.draw].

    Conventions of the embedding.
    - A JS object is an own-property record, [gmap string value]; the
      properties every JS value inherits from a built-in prototype are not
      part of a record (the one place where the code trips over them, the
      grouping object of [bindEvents], is modelled explicitly).
    - JS numbers occur only as list indices and sizes: [number] is an exact
      integer or [NaN].
    - Strings are Rocq strings (bytes); the class names, selectors and
      decimal indices the library handles are ASCII.
    - [deepMerge] is given twice: on values, for what it returns, and on
      a store of objects held by reference, for what it writes to; the
      two are related by [denotes].  The order in which a loop visits the
      keys of an object is not modelled: every iteration writes a key of
      its own.
    - A DOM element is named by its position in the document tree, see
      [node]; user callbacks are opaque names and a call is recorded in a
      trace. *)

From stdpp Require Import gmap strings list fin_maps pretty.

#[local] Set Warnings "-register-all,-clear-no-such-hyp".
#[local] Open Scope string_scope.
#[local] Open Scope list_scope.

(** ** JS values *)

Inductive number :=
  | NaN
  | Num (z : Z).

Inductive value :=
  | VUndefined
  | VNull
  | VBool (b : bool)
  | VNumber (n : number)
  | VString (s : string)
  | VFunction (name : nat)
  | VArray (l : list value)
  | VObject (m : gmap string value).

#[global] Instance number_eq_dec : EqDecision number.
Proof. solve_decision. Defined.

(** [Boolean(v)], the test behind [!v], [v && ...], [v || ...] and
    [filter(Boolean)]. *)
Definition truthy (v : value) : bool :=
  match v with
  | VUndefined | VNull => false
  | VBool b => b
  | VNumber NaN => false
  | VNumber (Num z) => negb (Z.eqb z 0)
  | VString s => negb (String.eqb s "")
  | VFunction _ | VArray _ | VObject _ => true
  end.

(** * 4.1 ClassName builder *)

Module RULES.
Definition classPrefix : string := "dh".
Definition dataBindClass : string := "data-bind-item".
(** [get eventClass() { return `${this.classPrefix}-event`; }] *)
Definition eventClass : string := classPrefix +:+ "-event".
(** [get eventActiveClass() { return `${this.eventClass}-active`; }] *)
Definition eventActiveClass : string := eventClass +:+ "-active".
End RULES.

(** A class token as the callers pass it: a string, or [null] / [undefined]. *)
Inductive token :=
  | TString (s : string)
  | TNull
  | TUndefined.

(** An argument of the two builders: one token or an array of tokens. *)
Inductive tokens :=
  | One (t : token)
  | Many (l : list token).

(** [Boolean(t)] on a token. *)
Definition token_truthy (t : token) : bool :=
  match t with
  | TString s => negb (String.eqb s "")
  | TNull | TUndefined => false
  end.

(** [`${t}`] and [String(t)]. *)
Definition token_text (t : token) : string :=
  match t with
  | TString s => s
  | TNull => "null"
  | TUndefined => "undefined"
  end.

(** The parameter default [= []] (taken for [undefined] only) followed by
    [Array.isArray(x) ? x : [x]]. *)
Definition to_array (x : tokens) : list token :=
  match x with
  | One TUndefined => []
  | One t => [t]
  | Many l => l
  end.

(** [Array.prototype.join] on strings. *)
Definition join (sep : string) (l : list string) : string := String.concat sep l.

Definition makeClassName (prefixed raw : tokens) : string :=
  let prefArr := to_array prefixed in
  let rawArr := to_array raw in
  let prefixClasses :=
    map (fun p => RULES.classPrefix +:+ "-" +:+ token_text p)
        (filter (fun t => token_truthy t = true) prefArr) in
  join " " (prefixClasses ++ map token_text (filter (fun t => token_truthy t = true) rawArr)).

Definition makeSelectorClassName (prefixed raw : tokens) : string :=
  let prefArr := to_array prefixed in
  let rawArr := to_array raw in
  let prefSelectors := map (fun n => "." +:+ makeClassName (Many [n]) (One TUndefined)) prefArr in
  let rawSelectors :=
    map (fun n => "." +:+ token_text n) (filter (fun t => token_truthy t = true) rawArr) in
  join "," (prefSelectors ++ rawSelectors).

(** The two operations as the specification words them: both drop the
    falsy tokens of both arguments, then prefix, then join. *)
Definition spec_class_list (prefixed raw : tokens) : list string :=
  map (fun p => RULES.classPrefix +:+ "-" +:+ token_text p)
      (filter (fun t => token_truthy t = true) (to_array prefixed))
  ++ map token_text (filter (fun t => token_truthy t = true) (to_array raw)).

Definition spec_makeClassName (prefixed raw : tokens) : string :=
  join " " (spec_class_list prefixed raw).

Definition spec_makeSelectorClassName (prefixed raw : tokens) : string :=
  join "," (map (fun c => "." +:+ c) (spec_class_list prefixed raw)).

(** * 4.2 Option merger *)

(** The own enumerable properties of an array: its elements under the
    decimal index keys. *)
Definition index_keyed {A} (l : list A) : gmap string A :=
  list_to_map (imap (fun i v => (pretty i, v)) l).

Definition chars (s : string) : list value :=
  map (fun c => VString (String c EmptyString)) (String.list_ascii_of_string s).

(** [{...v}]: the own enumerable properties of [v]; also the keys a
    [for (key in v)] loop visits, and what [v[key]] can find. *)
Definition spread (v : value) : gmap string value :=
  match v with
  | VObject m => m
  | VArray l => index_keyed l
  | VString s => index_keyed (chars s)
  | _ => ∅
  end.

(** [v[key]] *)
Definition get (v : value) (key : string) : value :=
  default VUndefined (spread v !! key).

(** [v || d] *)
Definition or_else (v d : value) : value := if truthy v then v else d.

(** [typeof v === "object"] *)
Definition typeof_object (v : value) : bool :=
  match v with
  | VNull | VArray _ | VObject _ => true
  | _ => false
  end.

Definition isArray (v : value) : bool :=
  match v with VArray _ => true | _ => false end.

(** The test of the loop body:
    [source[key] && typeof source[key] === "object" && !Array.isArray(source[key])]. *)
Definition mergeable (v : value) : bool :=
  truthy v && typeof_object v && negb (isArray v).

Fixpoint deepMerge (target source : value) {struct source} : value :=
  let body (key : string) (sv : value) (result : gmap string value) :=
    if mergeable sv
    then <[key := deepMerge (or_else (get target key) (VObject ∅)) sv]> result
    else <[key := sv]> result in
  match source with
  | VObject sm => VObject (map_fold body (spread target) sm)
  | VArray l =>
      VObject
        ((fix each (i : nat) (l : list value) (result : gmap string value) :=
            match l with
            | [] => result
            | sv :: l' => each (S i) l' (body (pretty i) sv result)
            end) 0%nat l (spread target))
  | VString s =>
      VObject (map_fold (fun key sv result => <[key := sv]> result)
                        (spread target) (index_keyed (chars s)))
  | _ => VObject (spread target)
  end.

(** The loop body of [deepMerge], for the lemmas. *)
Definition merge_body (target : value) (key : string) (sv : value)
    (result : gmap string value) : gmap string value :=
  if mergeable sv
  then <[key := deepMerge (or_else (get target key) (VObject ∅)) sv]> result
  else <[key := sv]> result.

(** ** The merge on a store of objects

    The same function with objects held by reference, to see what it
    writes to.  A variable or a property holds a primitive or a reference;
    an object in the store is its own enumerable properties, and whether
    it is an array. *)

Inductive primitive :=
  | PUndefined
  | PNull
  | PBool (b : bool)
  | PNumber (n : number)
  | PString (s : string)
  | PFunction (name : nat).

Inductive ref_value :=
  | Prim (p : primitive)
  | Ref (at_ : nat).

Record object := Object {
  is_array : bool;
  props : gmap string ref_value
}.

Abbreviation store := (gmap nat object).

Definition to_value (p : primitive) : value :=
  match p with
  | PUndefined => VUndefined
  | PNull => VNull
  | PBool b => VBool b
  | PNumber n => VNumber n
  | PString s => VString s
  | PFunction f => VFunction f
  end.

Module Store.
(** [Boolean(v)] *)
Definition truthy (v : ref_value) : bool :=
  match v with
  | Prim p => truthy (to_value p)
  | Ref _ => true
  end.

(** [{...v}] as a property map; also the keys of [for (key in v)]. *)
Definition spread (h : store) (v : ref_value) : gmap string ref_value :=
  match v with
  | Ref a => default ∅ (props <$> h !! a)
  | Prim (PString s) =>
      index_keyed (map (fun c => Prim (PString (String c EmptyString)))
                       (String.list_ascii_of_string s))
  | Prim _ => ∅
  end.

(** [v[key]] *)
Definition get (h : store) (v : ref_value) (key : string) : ref_value :=
  default (Prim PUndefined) (spread h v !! key).

(** [v && typeof v === "object" && !Array.isArray(v)] *)
Definition mergeable (h : store) (v : ref_value) : bool :=
  match v with
  | Ref a => negb (default false (is_array <$> h !! a))
  | Prim _ => false
  end.

(** A new object, at an address not in use. *)
Definition alloc (h : store) (o : object) : store * nat :=
  let a := fresh (dom h) in (<[a := o]> h, a).

(** [o[key] = v], for the object at [a]. *)
Definition write (h : store) (a : nat) (key : string) (v : ref_value) : store :=
  alter (fun o => Object (is_array o) (<[key := v]> (props o))) a h.

(** [target[key] || {}] *)
Definition or_empty (h : store) (v : ref_value) : store * ref_value :=
  if truthy v then (h, v)
  else let '(h, e) := alloc h (Object false ∅) in (h, Ref e).

(** [deepMerge(target, source)] run with room for [depth] nested calls on
    the stack: the store it leaves, and the reference it returns, or
    [None] when the stack is exhausted (the engine's [RangeError]). *)
Fixpoint deepMerge (depth : nat) (h : store) (target source : ref_value)
  : store * option ref_value :=
  match depth with
  | 0%nat => (h, None)
  | S depth =>
      let '(h, result) := alloc h (Object false (spread h target)) in
      let body (st : store * bool) (key : string) : store * bool :=
        let '(h, running) := st in
        if running then
          let sv := get h source key in
          if mergeable h sv then
            let '(h, tv) := or_empty h (get h target key) in
            match deepMerge depth h tv sv with
            | (h, Some merged) => (write h result key merged, true)
            | (h, None) => (h, false)
            end
          else (write h result key sv, true)
        else st in
      let '(h, running) :=
        foldl body (h, true) (map fst (map_to_list (spread h source))) in
      (h, if running then Some (Ref result) else None)
  end.

(** Every object of [h] is in [h'], unchanged. *)
Definition preserved (h h' : store) : Prop :=
  ∀ a o, h !! a = Some o → h' !! a = Some o.

End Store.


(** The value the merge leaves under a key of the source. *)
Definition merged (tv : value) (sm : gmap string value) (key : string) : value :=
  match sm !! key with
  | Some sv =>
      if mergeable sv then deepMerge (or_else (get tv key) (VObject ∅)) sv else sv
  | None => VUndefined
  end.


(** * The renderers: root lookup, schema mapping, view data *)

(** An element is named by its position in the document tree: the child
    indices on the way from the element up to the document element,
    nearest first.  [[]] is the document element. *)
Definition node := list nat.

(** How a call ends: it returns, or it throws [new kind(message)]. *)
Inductive outcome (A : Type) :=
  | Returned (a : A)
  | Thrown (kind message : string).
Arguments Returned {A} a.
Arguments Thrown {A} kind message.

(** [document.getElementById(id)], over the document's elements by [id]. *)
Definition getElementById (ids : gmap string node) (id : string) : option node :=
  ids !! id.

(** A schema field: a mapping function [(data, key) => ...] or a literal. *)
Inductive mapper :=
  | MFunction (f : value → string → value)
  | MLiteral (v : value).

(** [createMapper(schema)(data)] *)
Definition createMapper (schema : gmap string mapper) (data : value) : value :=
  VObject
    (map_imap (fun key m =>
       Some match m with
            | MFunction f => f data key
            | MLiteral v => v
            end) schema).

(** [arr.slice(0, end)] for a numeric [end]: [NaN] counts as 0 and a
    negative [end] is taken from the end of the array. *)
Definition slice0 {A} (arr : list A) (size : number) : list A :=
  match size with
  | NaN => []
  | Num z =>
      if (z <? 0)%Z then take (Z.to_nat (Z.of_nat (length arr) + z)) arr
      else take (Z.to_nat z) arr
  end.

Module PanelRender.
(** [render]: [const panelEl = document.getElementById(panelId);
    if (!panelEl) throw new Error(`No panel element with id ${panelId}`);]
    and then the statements that follow, [rest], run on the element. *)
Definition render {A} (ids : gmap string node) (panelId : string)
    (rest : node → outcome A) : outcome A :=
  match getElementById ids panelId with
  | None => Thrown "Error" ("No panel element with id " +:+ panelId)
  | Some panelEl => rest panelEl
  end.

(** [render], "데이터 전처리": [if (!schema) viewData = data; else
    viewData = data.slice(0, panelOptions.size).map(mapper)]. *)
Definition viewData (schema : option (gmap string mapper))
    (data : list value) (size : number) : list value :=
  match schema with
  | None => data
  | Some schema => map (createMapper schema) (slice0 data size)
  end.
End PanelRender.

Module ListView.
(** [init]: [this.el = document.getElementById(this.id);
    if (!this.el) throw new Error(`No listView element with id ${this.id}`);]
    and then [this.clear(); this.renderLayout(); this.setData(data)]. *)
Definition init {A} (ids : gmap string node) (id : string)
    (rest : node → outcome A) : outcome A :=
  match getElementById ids id with
  | None => Thrown "Error" ("No listView element with id " +:+ id)
  | Some el => rest el
  end.

(** [draw], "데이터 전처리": both branches slice. *)
Definition viewData (schema : option (gmap string mapper))
    (data : list value) (size : number) : list value :=
  match schema with
  | None => slice0 data size
  | Some schema => map (createMapper schema) (slice0 data size)
  end.
End ListView.

(** * The document *)

Definition parentElement (n : node) : option node :=
  match n with
  | [] => None
  | _ :: p => Some p
  end.

(** [a.contains(b)]: [b] is [a] or a descendant of [a]. *)
Definition contains (a b : node) : bool := bool_decide (a `suffix_of` b).

(** What the library reads and writes on an element: the class list, the
    [data-index] attribute and the [_uiIndex] property. *)
Record element := Element {
  classList : gset string;
  dataset_index : option string;
  _uiIndex : option number
}.

Abbreviation document := (gmap node element).

Definition classes (d : document) (n : node) : gset string :=
  default ∅ (classList <$> d !! n).

Definition has_class (d : document) (n : node) (c : string) : bool :=
  bool_decide (c ∈ classes d n).

(** [n.classList.add(c)] *)
Definition classList_add (d : document) (n : node) (c : string) : document :=
  alter (fun e => Element ({[c]} ∪ classList e) (dataset_index e) (_uiIndex e)) n d.

(** [n.classList.remove(c)] *)
Definition classList_remove (d : document) (n : node) (c : string) : document :=
  alter (fun e => Element (classList e ∖ {[c]}) (dataset_index e) (_uiIndex e)) n d.

(** [n.closest("." + c)]: the nearest element, from [n] itself upwards,
    whose class list holds [c]. *)
Fixpoint closest (d : document) (c : string) (n : node) : option node :=
  if has_class d n c then Some n
  else match n with
       | [] => None
       | _ :: p => closest d c p
       end.

(** ** 4.3.1 Item data resolution *)

Definition is_space (a : Ascii.ascii) : bool :=
  let c := Ascii.nat_of_ascii a in
  bool_decide (c = 32 ∨ 9 ≤ c ≤ 13)%nat.

Fixpoint skip_spaces (s : string) : string :=
  match s with
  | String a r => if is_space a then skip_spaces r else s
  | EmptyString => s
  end.

Definition digit (a : Ascii.ascii) : option Z :=
  let c := Ascii.nat_of_ascii a in
  if bool_decide (48 ≤ c ≤ 57)%nat then Some (Z.of_nat c - 48)%Z else None.

(** The value of the longest prefix of decimal digits, [None] when the
    string does not start with a digit. *)
Fixpoint digits (acc : option Z) (s : string) : option Z :=
  match s with
  | String a r =>
      match digit a with
      | Some v => digits (Some (10 * default 0%Z acc + v)%Z) r
      | None => acc
      end
  | EmptyString => acc
  end.

(** [parseInt(s, 10)]: leading white space, an optional sign, then the
    digits; [NaN] when no digit follows. *)
Definition parseInt (s : string) : number :=
  let s := skip_spaces s in
  let '(sign, s) :=
    match s with
    | String a r =>
        if Ascii.eqb a (Ascii.ascii_of_nat 45) then ((-1)%Z, r)
        else if Ascii.eqb a (Ascii.ascii_of_nat 43) then (1%Z, r)
        else (1%Z, s)
    | _ => (1%Z, s)
    end in
  match digits None s with
  | Some v => Num (sign * v)
  | None => NaN
  end.

(** [viewData[index]] *)
Definition at_index (viewData : list value) (index : Z) : value :=
  if (index <? 0)%Z then VUndefined
  else default VUndefined (viewData !! Z.to_nat index).

(** [makeSelectorClassName([], [RULES.dataBindClass])] is the class
    selector [".data-bind-item"] (lemma [dataBind_selector]); [closest]
    takes the class. *)
Definition resolveItemData (d : document) (n : node) (viewData : list value)
  : number * value :=
  match closest d RULES.dataBindClass n with
  | None => (NaN, VNull)
  | Some itemEl =>
      let index :=
        match d !! itemEl ≫= _uiIndex with
        | Some i => i
        | None => parseInt (default "" (d !! itemEl ≫= dataset_index))
        end in
      match index with
      | NaN => (NaN, VNull)
      | Num z => (index, at_index viewData z)
      end
  end.



(** * 4.3 Event delegation engine *)

Record Event := {
  e_type : string;
  target : node;
  relatedTarget : option node
}.

(** [{type, selector, handler}]; the handler is a user function, named. *)
Record EventSpec := {
  type : string;
  selector : option string;
  handler : nat
}.

(** One call [handler(event, matchedElement, itemData, index, root)]. *)
Record call := Call {
  c_handler : nat;
  c_event : Event;
  c_node : node;
  c_data : value;
  c_index : number;
  c_root : node
}.

(** The function objects the engine creates, by what they close over. *)
Inductive closure :=
  | Delegate (el : node) (selectorMap : list (string * list EventSpec))
             (elEvents : list EventSpec) (viewData : nat)
  | MouseOver (el : node) (currentActive : nat)
  | MouseOut (el : node) (currentActive : nat).

(** A function object: its identity and its code. *)
Record listener := Listener { fn_id : nat; fn_body : closure }.

(** An entry of a binding record: [{type, listener, selectors}], the
    hover entries having no [selectors]. *)
Record stored := Stored {
  s_type : string;
  s_listener : listener;
  s_selectors : option (list string)
}.

(** The state the engine works on. *)
Record world := World {
  doc : document;
  (** the listeners [addEventListener] has put on each element, in order *)
  listeners : gmap node (list (string * listener));
  (** [const EVENT_STORE = new WeakMap()] *)
  EVENT_STORE : gmap node (list stored);
  (** the [currentActive] variable of each [enableNearestHover] call *)
  cells : gmap nat (option node);
  (** the arrays passed as [viewData], by reference *)
  arrays : gmap nat (list value);
  (** the next fresh identity *)
  next_id : nat
}.

Definition set_doc (w : world) (d : document) : world :=
  World d (listeners w) (EVENT_STORE w) (cells w) (arrays w) (next_id w).

Definition set_listeners (w : world) (l : gmap node (list (string * listener))) : world :=
  World (doc w) l (EVENT_STORE w) (cells w) (arrays w) (next_id w).

Definition set_store (w : world) (s : gmap node (list stored)) : world :=
  World (doc w) (listeners w) s (cells w) (arrays w) (next_id w).

Definition set_cells (w : world) (c : gmap nat (option node)) : world :=
  World (doc w) (listeners w) (EVENT_STORE w) c (arrays w) (next_id w).

Definition set_next (w : world) (n : nat) : world :=
  World (doc w) (listeners w) (EVENT_STORE w) (cells w) (arrays w) n.

Definition listeners_on (w : world) (el : node) : list (string * listener) :=
  default [] (listeners w !! el).

Definition same_listener (ty : string) (l : listener) (x : string * listener) : bool :=
  bool_decide (x.1 = ty) && bool_decide (fn_id x.2 = fn_id l).

(** [el.addEventListener(type, l)]: appended, unless the same function is
    already registered for the type. *)
Definition addEventListener (w : world) (el : node) (ty : string) (l : listener) : world :=
  if existsb (same_listener ty l) (listeners_on w el) then w
  else set_listeners w (<[el := listeners_on w el ++ [(ty, l)]]> (listeners w)).

(** [el.removeEventListener(type, l)] *)
Definition removeEventListener (w : world) (el : node) (ty : string) (l : listener) : world :=
  set_listeners w
    (<[el := filter (fun x => same_listener ty l x = false) (listeners_on w el)]> (listeners w)).

Definition Error_message := string.

Inductive completion :=
  | Normal
  | Throw (kind : string) (message : Error_message).

(** The own property names of [Object.prototype]: read through the
    grouping object [{}] of [bindEvents] they are truthy and have no
    [push]. *)
Definition Object_prototype : list string :=
  [ "constructor"; "hasOwnProperty"; "isPrototypeOf"; "propertyIsEnumerable";
    "toLocaleString"; "toString"; "valueOf"; "__proto__";
    "__defineGetter__"; "__defineSetter__"; "__lookupGetter__"; "__lookupSetter__" ].

(** [m[key] ||= []; m[key].push(x)] on a keyed collection that keeps
    insertion order (the grouping object, and the [Map] of selectors).
    [Object.entries] lists keys that are array indices before the others;
    the order of the groups decides only the order in which the listeners
    of the different types are created. *)
Fixpoint push_at {A} (key : string) (x : A) (m : list (string * list A))
  : list (string * list A) :=
  match m with
  | [] => [(key, [x])]
  | (k, xs) :: m' =>
      if String.eqb k key then (k, xs ++ [x]) :: m' else (k, xs) :: push_at key x m'
  end.

(** [events.reduce((acc, event) => { ... }, {})]; [None] when the callback
    throws the [TypeError] of calling [push] on a prototype property. *)
Definition group_by_type (events : list EventSpec)
  : option (list (string * list EventSpec)) :=
  foldl (fun acc ev =>
           acc ≫= fun acc =>
             if bool_decide (type ev ∈ Object_prototype) then None
             else Some (push_at (type ev) ev acc))
        (Some []) events.

(** [!ev.selector] *)
Definition no_selector (ev : EventSpec) : bool :=
  match selector ev with
  | None => true
  | Some s => String.eqb s ""
  end.

Definition handler_call (e : Event) (n : node) (data : value) (index : number)
    (el : node) (ev : EventSpec) : call :=
  Call (handler ev) e n data index el.

Section engine.
(** [n.matches(selector)] in a document: the browser's selector engine. *)
Context (matches : document → node → string → bool).

(** [el.querySelectorAll(selector)]: the descendants of [el] that match. *)
Definition querySelectorAll (d : document) (el : node) (sel : string) : list node :=
  filter (fun n => n ≠ el ∧ contains el n = true ∧ matches d n sel = true)
         (map fst (map_to_list d)).

(** [el.querySelectorAll(selector).forEach(t => t.classList.remove(RULES.eventClass))] *)
Definition unmark (el : node) (d : document) (sel : string) : document :=
  foldl (fun d t => classList_remove d t RULES.eventClass) d (querySelectorAll d el sel).

(** [el.querySelectorAll(selector).forEach(t => t.classList.add(RULES.eventClass))] *)
Definition mark (el : node) (d : document) (sel : string) : document :=
  foldl (fun d t => classList_add d t RULES.eventClass) d (querySelectorAll d el sel).

Definition unbind_entry (el : node) (w : world) (s : stored) : world :=
  let w := removeEventListener w el (s_type s) (s_listener s) in
  match s_selectors s with
  | Some selectors => set_doc w (foldl (unmark el) (doc w) selectors)
  | None => w
  end.

Definition unbindEvents (w : world) (el : option node) : world :=
  match el with
  | None => w
  | Some el =>
      match EVENT_STORE w !! el with
      | Some stored => foldl (unbind_entry el) w stored
      | None => w
      end
  end.

Definition enableNearestHover (w : world) (el : option node) : world :=
  match el with
  | None => w
  | Some el =>
      let currentActive := next_id w in
      let mouseOver := Listener (S currentActive) (MouseOver el currentActive) in
      let mouseOut := Listener (S (S currentActive)) (MouseOut el currentActive) in
      let w := set_next (set_cells w (<[currentActive := None]> (cells w)))
                        (S (S (S currentActive))) in
      let w := addEventListener w el "mouseover" mouseOver in
      let w := addEventListener w el "mouseout" mouseOut in
      let stored := default [] (EVENT_STORE w !! el) in
      set_store w
        (<[el := stored ++ [Stored "mouseover" mouseOver None;
                            Stored "mouseout" mouseOut None]]> (EVENT_STORE w))
  end.

(** The body of [eventList.forEach(ev => ...)]. *)
Definition sort_event (el : node)
    (st : world * list (string * list EventSpec) * list EventSpec) (ev : EventSpec)
  : world * list (string * list EventSpec) * list EventSpec :=
  let '(w, selectorMap, elEvents) := st in
  if no_selector ev then (w, selectorMap, elEvents ++ [ev])
  else
    let sel := default "" (selector ev) in
    (set_doc w (mark el (doc w) sel), push_at sel ev selectorMap, elEvents).

(** The body of [Object.entries(grouped).forEach(([type, eventList]) => ...)]. *)
Definition register (el : node) (viewData : nat)
    (st : world * list stored) (entry : string * list EventSpec) : world * list stored :=
  let '(w, recorded) := st in
  let '(ty, eventList) := entry in
  let '(w, selectorMap, elEvents) := foldl (sort_event el) (w, [], []) eventList in
  let listener := Listener (next_id w) (Delegate el selectorMap elEvents viewData) in
  let w := set_next w (S (next_id w)) in
  let w := addEventListener w el ty listener in
  (w, recorded ++ [Stored ty listener (Some (map fst selectorMap))]).

Definition bindEvents (w : world) (el : option node) (events : list EventSpec)
    (viewData : nat) : world * completion :=
  match el, events with
  | None, _ | _, [] => (w, Normal)
  | Some el, _ =>
      let w := unbindEvents w (Some el) in
      match group_by_type events with
      | None => (w, Throw "TypeError" "acc[event.type].push is not a function")
      | Some grouped =>
          let '(w, recorded) := foldl (register el viewData) (w, []) grouped in
          let w := set_store w (<[el := recorded]> (EVENT_STORE w)) in
          (enableNearestHover w (Some el), Normal)
      end
  end.

(** ** The listeners *)

(** The [while (node && node !== el)] loop of the delegating listener,
    from [node] upwards, and the selector-less handlers after it. *)
Fixpoint delegate (w : world) (el : node) (selectorMap : list (string * list EventSpec))
    (elEvents : list EventSpec) (viewData : nat) (e : Event) (n : node) : list call :=
  if bool_decide (n = el) then map (handler_call e el VNull NaN el) elEvents
  else
    match find (fun entry => matches (doc w) n entry.1) selectorMap with
    | Some (_, evList) =>
        let '(index, data) :=
          resolveItemData (doc w) n (default [] (arrays w !! viewData)) in
        map (handler_call e n data index el) evList
    | None =>
        match n with
        | _ :: p => delegate w el selectorMap elEvents viewData e p
        | [] => map (handler_call e el VNull NaN el) elEvents
        end
    end.

Definition current (w : world) (cell : nat) : option node :=
  default None (cells w !! cell).

Definition mouseOver (w : world) (el : node) (cell : nat) (e : Event) : world :=
  match closest (doc w) RULES.eventClass (target e) with
  | None => w
  | Some t =>
      if negb (contains el t) then w
      else
        let d :=
          match current w cell with
          | Some c =>
              if bool_decide (c ≠ t) then classList_remove (doc w) c RULES.eventActiveClass
              else doc w
          | None => doc w
          end in
        set_cells (set_doc w (classList_add d t RULES.eventActiveClass))
                  (<[cell := Some t]> (cells w))
  end.

Definition deactivate (w : world) (cell : nat) (c : node) : world :=
  set_cells (set_doc w (classList_remove (doc w) c RULES.eventActiveClass))
            (<[cell := None]> (cells w)).

Definition mouseOut (w : world) (el : node) (cell : nat) (e : Event) : world :=
  match current w cell with
  | None => w
  | Some c =>
      match relatedTarget e with
      | None => deactivate w cell c
      | Some related =>
          if contains c related then w
          else
            match closest (doc w) RULES.eventClass related with
            | Some _ => w
            | None => deactivate w cell c
            end
      end
  end.

(** Running one listener on an event. *)
Definition invoke (w : world) (l : listener) (e : Event) : world * list call :=
  match fn_body l with
  | Delegate el selectorMap elEvents viewData =>
      (w, delegate w el selectorMap elEvents viewData e (target e))
  | MouseOver el cell => (mouseOver w el cell e, [])
  | MouseOut el cell => (mouseOut w el cell e, [])
  end.

(** The browser delivering the native event [e] at [el]: every listener
    registered on [el] for the type of [e] runs, in registration order. *)
Definition deliver (w : world) (el : node) (e : Event) : world * list call :=
  foldl (fun st l => let '(w, calls) := st in
                     let '(w', more) := invoke w l e in (w', calls ++ more))
        (w, [])
        (map snd (filter (fun x => x.1 = e_type e) (listeners_on w el))).
End engine.

(** * Histories *)

(** What happens to the engine over time: the library is called, the
    browser delivers an event at an element, the application changes the
    document or an array. *)
Inductive op :=
  | Bind (el : option node) (events : list EventSpec) (viewData : nat)
  | Unbind (el : option node)
  | Dispatch (el : node) (e : Event)
  | Mutate (d : document)
  | Assign (array : nat) (items : list value).

(** A fresh page: nothing bound, no listener. *)
Definition initial (d : document) (arrays : gmap nat (list value)) : world :=
  World d ∅ ∅ ∅ arrays 0.

Section histories.
Context (matches : document → node → string → bool).

Definition step (w : world) (o : op) : world :=
  match o with
  | Bind el events viewData => (bindEvents matches w el events viewData).1
  | Unbind el => unbindEvents matches w el
  | Dispatch el e => (deliver matches w el e).1
  | Mutate d => set_doc w d
  | Assign a items =>
      World (doc w) (listeners w) (EVENT_STORE w) (cells w)
            (<[a := items]> (arrays w)) (next_id w)
  end.

Definition run (w : world) (history : list op) : world := foldl step w history.
End histories.

(** An event list [bindEvents] accepts: not empty, and no type is a
    property name of [Object.prototype]. *)
Definition valid_type (ev : EventSpec) : bool :=
  negb (bool_decide (type ev ∈ Object_prototype)).

Definition accepted (events : list EventSpec) : bool :=
  negb (bool_decide (events = [])) && forallb valid_type events.

(** The binding in force on [el]: the event list and view data of the
    last [bind] on [el] that went through, unless an [unbind] of [el] (or
    the unbind of a [bind] that then threw) came after it; a [bind] with
    an empty list changes nothing. *)
Definition track (el : node) (b : option (list EventSpec * nat)) (o : op)
  : option (list EventSpec * nat) :=
  match o with
  | Bind (Some el') events viewData =>
      if bool_decide (el' = el) then
        match events with
        | [] => b
        | _ => if accepted events then Some (events, viewData) else None
        end
      else b
  | Unbind (Some el') => if bool_decide (el' = el) then None else b
  | _ => b
  end.

Definition binding (el : node) (history : list op) : option (list EventSpec * nat) :=
  foldl (track el) None history.




(** The specs of one type, as the delegating listener holds them: by
    selector, in the order the selectors first occur, and the
    selector-less ones. *)
Definition selectorMap_of (eventList : list EventSpec) : list (string * list EventSpec) :=
  foldl (fun m ev => if no_selector ev then m else push_at (default "" (selector ev)) ev m)
        [] eventList.

Definition elEvents_of (eventList : list EventSpec) : list EventSpec :=
  filter (fun ev => no_selector ev = true) eventList.

(** The value under a key of a keyed collection. *)
Definition assoc {A} (key : string) (m : list (string * list A)) : list A :=
  default [] (snd <$> find (fun entry => String.eqb entry.1 key) m).

(** ** Grouping, and dispatch as the specification words it *)







(** ** The shape of a binding record *)

Definition entry_pair (s : stored) : string * listener := (s_type s, s_listener s).

(** The entry recorded for one event type and its specs. *)
Definition delegate_entry (el : node) (viewData : nat)
    (group : string * list EventSpec) (s : stored) : Prop :=
  s_type s = group.1
  ∧ fn_body (s_listener s)
    = Delegate el (selectorMap_of group.2) (elEvents_of group.2) viewData
  ∧ s_selectors s = Some (map fst (selectorMap_of group.2)).

(** The two entries of the hover sub-engine, sharing one [currentActive]. *)
Definition hover_entries (el : node) (cell : nat) (h : list stored) : Prop :=
  ∃ over out,
    h = [Stored "mouseover" (Listener over (MouseOver el cell)) None;
         Stored "mouseout" (Listener out (MouseOut el cell)) None].

(** The record [bindEvents] leaves for an accepted event list. *)
Definition bound_shape (el : node) (events : list EventSpec) (viewData : nat)
    (record : list stored) : Prop :=
  ∃ grouped delegates cell hover,
    group_by_type events = Some grouped
    ∧ Forall2 (delegate_entry el viewData) grouped delegates
    ∧ hover_entries el cell hover
    ∧ record = delegates ++ hover.

(** The listeners on [el] are those of the binding in force, all recorded,
    and no function identity is ahead of the counter. *)
Definition consistent (w : world) (el : node) (b : option (list EventSpec * nat)) : Prop :=
  (∀ x, x ∈ listeners_on w el → (fn_id x.2 < next_id w)%nat)
  ∧ match b with
    | None => listeners_on w el = []
    | Some (events, viewData) =>
        ∃ record,
          EVENT_STORE w !! el = Some record
          ∧ listeners_on w el = map entry_pair record
          ∧ bound_shape el events viewData record
    end.


(** ** The marker class *)

(** The document with the marker class [RULES.eventClass] taken off every
    element. *)
Definition unmarked (d : document) : document :=
  (fun e => Element (classList e ∖ {[RULES.eventClass]}) (dataset_index e) (_uiIndex e))
    <$> d.


(** The selectors a binding record holds, entry by entry. *)
Definition recorded_selectors (record : list stored) : list string :=
  flat_map (fun s => default [] (s_selectors s)) record.

(** ** The hover sub-engine as a state machine *)

(** The events the two hover listeners of one [enableNearestHover] call
    receive. *)
Inductive pointer :=
  | Enter (e : Event)
  | Leave (e : Event).

Definition hover_step (el : node) (cell : nat) (w : world) (p : pointer) : world :=
  match p with
  | Enter e => mouseOver w el cell e
  | Leave e => mouseOut w el cell e
  end.

Definition hover_run (el : node) (cell : nat) (w : world) (ps : list pointer) : world :=
  foldl (hover_step el cell) w ps.

(** The elements carrying the active class are exactly [currentActive],
    when it is set, and none otherwise. *)
Definition one_active (w : world) (cell : nat) : Prop :=
  ∀ n, RULES.eventActiveClass ∈ classes (doc w) n ↔ current w cell = Some n.

(** The test of [mouseOut] for leaving the active region: there is no
    destination, or the destination is neither inside [currentActive] nor
    inside any element carrying the marker class. *)
Definition leaves (w : world) (c : node) (e : Event) : bool :=
  match relatedTarget e with
  | None => true
  | Some related =>
      negb (contains c related)
      && bool_decide (closest (doc w) RULES.eventClass related = None)
  end.

(** * A page for the examples *)

Module Example.
(** The selector engine on single class selectors [".c"] (["."] is
    character 46). *)
Definition class_matches (d : document) (n : node) (sel : string) : bool :=
  match sel with
  | String a c => Ascii.eqb a (Ascii.ascii_of_nat 46) && has_class d n c
  | EmptyString => false
  end.

Definition plain (cs : list string) : element := Element (list_to_set cs) None None.

(** The [li] that [renderBody] creates for the record at [index]. *)
Definition item (index : nat) : element :=
  Element {[ "dh-panel-item"; RULES.dataBindClass ]}
          (Some (pretty index)) (Some (Num (Z.of_nat index))).

(** [root] is the first child of the document element; it holds two
    items, the second with a title that holds a span. *)
Definition root : node := [0%nat].
Definition item0 : node := [0; 0]%nat.
Definition item1 : node := [1; 0]%nat.
Definition title1 : node := [0; 1; 0]%nat.
Definition span1 : node := [0; 0; 1; 0]%nat.

Definition page : document :=
  {[ [] := plain []; root := plain ["panel"];
     item0 := item 0; item1 := item 1;
     title1 := plain ["title"; "open"]; span1 := plain [] ]}.

Definition records : list value := [VString "first"; VString "second"].

(** Nothing bound yet; the view data is array 0. *)
Definition start : world := World page ∅ ∅ ∅ {[ 0%nat := records ]} 1.

Definition click_item : EventSpec :=
  {| type := "click"; selector := Some ".dh-panel-item"; handler := 1 |}.
Definition click_root : EventSpec :=
  {| type := "click"; selector := None; handler := 2 |}.
Definition click_open : EventSpec :=
  {| type := "click"; selector := Some ".open"; handler := 3 |}.
Definition over_item : EventSpec :=
  {| type := "mouseover"; selector := Some ".dh-panel-item"; handler := 4 |}.
Definition click_item' : EventSpec :=
  {| type := "click"; selector := Some ".dh-panel-item"; handler := 5 |}.

Definition events : list EventSpec :=
  [click_item; click_root; click_open; over_item; click_item'].

Definition bound : world := (bindEvents class_matches start (Some root) events 0).1.
(** The same page inside a document element that itself carries the marker
    class (as when the page sits inside an element marked by a binding
    of an outer root). *)
Definition nested_page : document := <[ [] := plain [RULES.eventClass] ]> page.

Definition over_span : Event :=
  {| e_type := "mouseover"; target := span1; relatedTarget := None |}.
End Example.

(** * Further utilities of [utils.js] *)

(** How deep the plain mappings of a value are nested: the depth of the
    recursion of [deepMerge] with the value as its source. *)
Fixpoint object_depth (v : value) : nat :=
  match v with
  | VObject m => S (map_fold (fun _ v acc => max (object_depth v) acc) 0%nat m)
  | _ => 0%nat
  end.


(** A store with an object that holds itself: [o.self = o]. *)
Definition cyclic_store : store :=
  {[ 0%nat := Object false {[ "size" := Prim (PNumber (Num 5)) ]};
     1%nat := Object false {[ "self" := Ref 1 ]} ]}.

(** ** [isEmpty] *)


(** [typeof v === "string"] *)
Definition typeof_string (v : value) : bool :=
  match v with VString _ => true | _ => false end.




(** ** [injectCss] *)

(** [\w]: an ASCII letter, a digit or the underscore. *)
Definition is_word (a : Ascii.ascii) : bool :=
  let c := Ascii.nat_of_ascii a in
  bool_decide (48 ≤ c ≤ 57 ∨ 65 ≤ c ≤ 90 ∨ c = 95 ∨ 97 ≤ c ≤ 122)%nat.

(** [s.replace(/\W/g, "")] *)
Fixpoint strip_non_word (s : string) : string :=
  match s with
  | String a r => if is_word a then String a (strip_non_word r) else strip_non_word r
  | EmptyString => EmptyString
  end.

(** [s.split(sep)] for a separator of one character. *)
Fixpoint split_on (sep : Ascii.ascii) (s : string) : list string :=
  match s with
  | String a r =>
      if Ascii.eqb a sep then EmptyString :: split_on sep r
      else match split_on sep r with
           | segment :: rest => String a segment :: rest
           | [] => [String a EmptyString]
           end
  | EmptyString => [EmptyString]
  end.

(** ["/"] *)
Definition slash : Ascii.ascii := Ascii.ascii_of_nat 47.

(** ["css-" + url.split("/").pop().replace(/\W/g, "")] *)
Definition css_id (url : string) : string :=
  "css-" +:+ strip_non_word (default "" (last (split_on slash url))).

Record link := Link {
  link_id : string;
  rel : string;
  href : string
}.

(** The part of the page [injectCss] reads and writes: the ids of the
    elements the page has besides, and the links appended to its head. *)
Record styles := Styles {
  other_ids : gset string;
  links : list link
}.

(** [document.getElementById(id)] finds an element. *)
Definition has_id (p : styles) (id : string) : bool :=
  bool_decide (id ∈ other_ids p ∨ id ∈ map link_id (links p)).

Definition injectCss (url : value) (p : styles) : styles :=
  match url with
  | VString s =>
      if String.eqb s "" then p
      else
        let id := css_id s in
        if has_id p id then p
        else Styles (other_ids p) (links p ++ [Link id "stylesheet" s])
  | _ => p
  end.

(** ** What a binding marks, and the end of a component *)

(** The selectors [bindEvents] runs [querySelectorAll] with to mark
    elements, in the order in which it does: group by group, one for
    every spec that has a selector. *)
Definition marked_in (eventList : list EventSpec) : list string :=
  map (fun ev => default "" (selector ev))
      (filter (fun ev => no_selector ev = false) eventList).

Definition marked_selectors (grouped : list (string * list EventSpec)) : list string :=
  flat_map (fun group => marked_in group.2) grouped.

(** [el.innerHTML = ""] ([utils.clear]): every element below [el] leaves
    the document. *)
Definition clear (d : document) (el : node) : document :=
  filter (fun entry => ¬ (contains el entry.1 = true ∧ entry.1 ≠ el)) d.



(** * Rendering: the body of a panel *)

(** An element as a renderer builds it before attaching it: what it
    assigns to it, and the children it appends, in order. *)
Inductive subtree := Dom {
  tagName : string;
  className : string;
  data_index : option string;
  ui_index : option number;
  attributes : list (string * value);
  textContent : option value;
  children : list subtree
}.

(** ASCII white space as the class attribute is split on: tab, line
    feed, form feed, carriage return and space. *)
Definition is_html_space (a : Ascii.ascii) : bool :=
  let c := Ascii.nat_of_ascii a in
  bool_decide (c = 9 ∨ c = 10 ∨ c = 12 ∨ c = 13 ∨ c = 32)%nat.

(** The tokens of a class attribute; [word] is the token being read. *)
Fixpoint class_tokens_from (word : string) (s : string) : list string :=
  match s with
  | EmptyString => if String.eqb word "" then [] else [word]
  | String a r =>
      if is_html_space a
      then (if String.eqb word "" then [] else [word]) ++ class_tokens_from "" r
      else class_tokens_from (word +:+ String a EmptyString) r
  end.

Definition class_tokens (s : string) : list string := class_tokens_from "" s.

(** The element of the document a built element becomes. *)
Definition element_of (t : subtree) : element :=
  Element (list_to_set (class_tokens (className t))) (data_index t) (ui_index t).

(** The children [cs] of the element at [path], from child index [i]
    on. *)
Definition mount_all (mount_at : node → subtree → document) (path : node)
  : nat → list subtree → document :=
  fix each i cs :=
    match cs with
    | [] => ∅
    | c :: cs => mount_at (i :: path) c ∪ each (S i) cs
    end.

(** The elements of a built tree, placed at [path]. *)
Fixpoint mount (path : node) (t : subtree) : document :=
  <[path := element_of t]> (mount_all mount path 0%nat (children t)).

(** The child of [p] that [n] is, or lies below. *)
Definition child_toward (p n : node) : option nat :=
  match drop (length n - S (length p)) n with
  | i :: p' => if decide (p' = p) then Some i else None
  | [] => None
  end.

(** An index no child of [p] has. *)
Definition next_child (d : document) (p : node) : nat :=
  foldr max 0%nat (map S (omap (child_toward p) (map fst (map_to_list d)))).

(** [p.appendChild(t)]: [t] becomes the last child of [p]. *)
Definition appendChild (d : document) (p : node) (t : subtree) : document :=
  mount (next_child d p :: p) t ∪ d.

(** The element reached from [t] by the child indices [rel], outermost
    first. *)
Fixpoint descend (t : subtree) (rel : list nat) : option subtree :=
  match rel with
  | [] => Some t
  | i :: rel => children t !! i ≫= fun c => descend c rel
  end.

(** No element of the tree carries the class [c]. *)
Fixpoint no_class (c : string) (t : subtree) : bool :=
  negb (bool_decide (c ∈ class_tokens (className t))) && forallb (no_class c) (children t).

Definition outcome_bind {A B} (x : outcome A) (f : A → outcome B) : outcome B :=
  match x with
  | Returned a => f a
  | Thrown kind message => Thrown kind message
  end.

(** [xs.forEach((x, index) => ...)] collecting what each call builds;
    the first call that throws ends the loop. *)
Fixpoint for_each {A B} (f : nat → A → outcome B) (i : nat) (xs : list A) : outcome (list B) :=
  match xs with
  | [] => Returned []
  | x :: xs =>
      outcome_bind (f i x) (fun y =>
      outcome_bind (for_each f (S i) xs) (fun ys => Returned (y :: ys)))
  end.

(** [v.key], for a key that no built-in prototype has: a [TypeError] on
    [null] and [undefined]. *)
Definition property (v : value) (key : string) : outcome value :=
  match v with
  | VNull | VUndefined => Thrown "TypeError" ("Cannot read properties of null or undefined, reading " +:+ key)
  | _ => Returned (get v key)
  end.

(** [a === b] where [b] is a string. *)
Definition is_string (a : value) (b : string) : bool :=
  match a with
  | VString s => String.eqb s b
  | _ => false
  end.

Module PanelRender_body.
Section render.
(** [String.prototype.toLowerCase] of the engine. *)
Context (toLowerCase : string → string).

Definition createIcon (icon : value) : subtree :=
  Dom "div" (makeClassName (Many [TString "panel-item-icon"]) (One TUndefined))
      None None [] None
      [Dom "i" "" None None [("data-lucide", icon)] None []].

Definition createContent (data : value) : subtree :=
  let title :=
    Dom "span" (makeClassName (Many [TString "panel-item-title"]) (One TUndefined))
        None None [] (Some (get data "title")) [] in
  let subText :=
    if truthy (get data "subText")
    then [Dom "span" (makeClassName (Many [TString "panel-item-subText"]) (One TUndefined))
              None None [] (Some (get data "subText")) []]
    else [] in
  Dom "div" (makeClassName (Many [TString "panel-item-content"]) (One TUndefined))
      None None [] None (title :: subText).

Definition createIp (ip : value) : subtree :=
  Dom "span" (makeClassName (Many [TString "panel-right"]) (Many [TString "ip"]))
      None None [] (Some ip) [].

(** [(status || "").toLowerCase()] throws on a truthy value that is not a
    string. *)
Definition createStatus (status : value) : outcome subtree :=
  match or_else status (VString "") with
  | VString s =>
      Returned
        (Dom "span"
             (makeClassName (Many [TString "panel-right"])
                            (Many [TString "status-badge"; TString (toLowerCase s)]))
             None None [] (Some status) [])
  | _ => Thrown "TypeError" "toLowerCase is not a function"
  end.

(** [null] when the type is neither ["status"] nor ["ip"]. *)
Definition createRightComponent (data : value) : outcome (option subtree) :=
  if is_string (get data "rightType") "status"
  then outcome_bind (createStatus (get data "status")) (fun el => Returned (Some el))
  else if is_string (get data "rightType") "ip"
  then Returned (Some (createIp (get data "ip")))
  else Returned None.

(** The body of [viewData.forEach((item, index) => ...)]: the [li]. *)
Definition renderItem (index : nat) (item : value) : outcome subtree :=
  outcome_bind (property item "icon") (fun icon =>
  let icons := if truthy icon then [createIcon icon] else [] in
  let contents := if truthy (get item "title") then [createContent item] else [] in
  outcome_bind
    (if truthy (get item "rightType") then createRightComponent item else Returned None)
    (fun right =>
  Returned
    (Dom "li" (makeClassName (Many [TString "panel-item"]) (Many [TString RULES.dataBindClass]))
         (Some (pretty index)) (Some (Num (Z.of_nat index))) [] None
         (icons ++ contents ++ option_list right)))).

(** The element [renderBody] builds and appends to the panel. *)
Definition body (viewData : list value) (emptyText : value) : outcome subtree :=
  outcome_bind
    (match viewData with
     | [] =>
         Returned
           [Dom "div" (makeClassName (Many [TString "panel-item"]) (One (TString "empty")))
                None None [] (Some emptyText) []]
     | _ => for_each renderItem 0%nat viewData
     end)
    (fun items =>
  Returned
    (Dom "div" (makeClassName (Many [TString "panel-body"]) (One TUndefined)) None None [] None
         [Dom "ul" (makeClassName (Many [TString "panel-item-list"]) (One TUndefined))
              None None [] None items])).

Definition renderBody (d : document) (panel : node) (viewData : list value)
    (emptyText : value) : outcome document :=
  outcome_bind (body viewData emptyText) (fun b => Returned (appendChild d panel b)).

(** The classes [renderItem] itself gives to the elements inside an
    item. *)
Definition inner_classes : list string :=
  [ "dh-panel-item-icon"; "dh-panel-item-content"; "dh-panel-item-title";
    "dh-panel-item-subText"; "dh-panel-right"; "ip"; "status-badge" ].

(** The status of an item, in lower case, does not spell the class [c]. *)
Definition status_free (c : string) (item : value) : Prop :=
  truthy (get item "rightType") = true →
  is_string (get item "rightType") "status" = true →
  ∀ s, or_else (get item "status") (VString "") = VString s →
       c ∉ class_tokens (toLowerCase s).

End render.

(** Whether [renderItem] gets through an item: the item is not [null] or
    [undefined], and when its type is ["status"] its status is a string
    or falsy. *)
Definition renderable (item : value) : bool :=
  match item with
  | VNull | VUndefined => false
  | _ =>
      if truthy (get item "rightType") && is_string (get item "rightType") "status"
      then typeof_string (or_else (get item "status") (VString ""))
      else true
  end.
End PanelRender_body.

(** [" "] *)
Definition space : Ascii.ascii := Ascii.ascii_of_nat 32.

(** Lower case of the letters A to Z, for the examples. *)
Definition lower_ascii (s : string) : string :=
  String.string_of_list_ascii
    (map (fun a =>
            let c := Ascii.nat_of_ascii a in
            if bool_decide (65 ≤ c ≤ 90)%nat then Ascii.ascii_of_nat (c + 32) else a)
         (String.list_ascii_of_string s)).

(** Two records, the second with a status badge. *)
Definition first_record : value := VObject {[ "title" := VString "first" ]}.

Definition second_record : value :=
  VObject {[ "title" := VString "second"; "rightType" := VString "status";
             "status" := VString "OK" ]}.

Definition example_records : list value := [first_record; second_record].

(** * Rendering: the body of a list view *)

(** [ListView.renderBody] and the renderers it calls, without
    [custom.body].  Unlike the panel it empties its own element first,
    and keeps it emptied when an item then fails. *)
Module ListView_body.
Section render.
(** [String.prototype.toLowerCase] of the engine. *)
Context (toLowerCase : string → string).
(** [this.iconEngine]: [null], or the [getIcon] of an engine, which gives
    an element or a falsy value. *)
Context (iconEngine : option (value → option subtree)).

(** [null] without an engine. *)
Definition renderIcon (icon : value) : option subtree :=
  match iconEngine with
  | None => None
  | Some getIcon =>
      Some (Dom "div" (makeClassName (Many [TString "listView-item-icon"]) (One TUndefined))
                None None [] None (option_list (getIcon icon)))
  end.

Definition renderContent (data : value) : subtree :=
  let title :=
    Dom "span" (makeClassName (Many [TString "listView-item-title"]) (One TUndefined))
        None None [] (Some (get data "title")) [] in
  let subText :=
    if truthy (get data "subText")
    then [Dom "span" (makeClassName (Many [TString "listView-item-subText"]) (One TUndefined))
              None None [] (Some (get data "subText")) []]
    else [] in
  Dom "div" (makeClassName (Many [TString "listView-item-content"]) (One TUndefined))
      None None [] None (title :: subText).

Definition createIp (ip : value) : subtree :=
  Dom "span" (makeClassName (Many [TString "listView-right"]) (Many [TString "ip"]))
      None None [] (Some ip) [].

(** [(status || "").toLowerCase()] throws on a truthy value that is not a
    string. *)
Definition createStatus (status : value) : outcome subtree :=
  match or_else status (VString "") with
  | VString s =>
      Returned
        (Dom "span"
             (makeClassName (Many [TString "listView-right"])
                            (Many [TString "status-badge"; TString (toLowerCase s)]))
             None None [] (Some status) [])
  | _ => Thrown "TypeError" "toLowerCase is not a function"
  end.

(** The [switch] on [data.rightType]; [null] by default. *)
Definition renderRightComponent (data : value) : outcome (option subtree) :=
  if is_string (get data "rightType") "status"
  then outcome_bind (createStatus (get data "status")) (fun el => Returned (Some el))
  else if is_string (get data "rightType") "ip"
  then Returned (Some (createIp (get data "ip")))
  else Returned None.

(** The body of [this.viewData.forEach((item, index) => ...)]: the
    [li]. *)
Definition renderItem (index : nat) (item : value) : outcome subtree :=
  outcome_bind (property item "icon") (fun icon =>
  let icons := if truthy icon then option_list (renderIcon icon) else [] in
  let contents := if truthy (get item "title") then [renderContent item] else [] in
  outcome_bind
    (if truthy (get item "rightType") then renderRightComponent item else Returned None)
    (fun right =>
  Returned
    (Dom "li"
         (makeClassName (Many [TString "listView-item"]) (Many [TString RULES.dataBindClass]))
         (Some (pretty index)) (Some (Num (Z.of_nat index))) [] None
         (icons ++ contents ++ option_list right)))).

(** The [ul] that [renderBody] builds. *)
Definition item_list (viewData : list value) (emptyText : value) : outcome subtree :=
  outcome_bind
    (match viewData with
     | [] =>
         Returned
           [Dom "li" (makeClassName (Many [TString "listView-item"]) (One (TString "empty")))
                None None [] (Some emptyText) []]
     | _ => for_each renderItem 0%nat viewData
     end)
    (fun items =>
  Returned
    (Dom "ul" (makeClassName (Many [TString "listView-item-list"]) (One TUndefined))
         None None [] None items)).

(** [this.bodyEl.innerHTML = ""] comes first: the document is returned
    with the outcome, since a throw leaves the body emptied. *)
Definition renderBody (d : document) (bodyEl : node) (viewData : list value)
    (emptyText : value) : document * outcome unit :=
  let d := clear d bodyEl in
  match item_list viewData emptyText with
  | Returned ul => (appendChild d bodyEl ul, Returned tt)
  | Thrown kind message => (d, Thrown kind message)
  end.

(** The classes [renderItem] itself gives to the elements inside an
    item. *)
Definition inner_classes : list string :=
  [ "dh-listView-item-icon"; "dh-listView-item-content"; "dh-listView-item-title";
    "dh-listView-item-subText"; "dh-listView-right"; "ip"; "status-badge" ].

(** The status of an item, in lower case, does not spell the class [c]. *)
Definition status_free (c : string) (item : value) : Prop :=
  truthy (get item "rightType") = true →
  is_string (get item "rightType") "status" = true →
  ∀ s, or_else (get item "status") (VString "") = VString s →
       c ∉ class_tokens (toLowerCase s).

(** No element that the icon engine gives carries the class [c]. *)
Definition icon_free (c : string) : Prop :=
  ∀ getIcon icon el, iconEngine = Some getIcon → getIcon icon = Some el → no_class c el = true.

End render.

(** Whether [renderItem] gets through an item: the item is not [null] or
    [undefined], and when its type is ["status"] its status is a string
    or falsy. *)
Definition renderable (item : value) : bool :=
  match item with
  | VNull | VUndefined => false
  | _ =>
      if truthy (get item "rightType") && is_string (get item "rightType") "status"
      then typeof_string (or_else (get item "status") (VString ""))
      else true
  end.
End ListView_body.

(** [getIcon] of the Lucide engine: a placeholder [i] element. *)
Definition lucide_getIcon (icon : value) : option subtree :=
  Some (Dom "i" "" None None [("data-lucide", icon)] None []).

(** * Part II: theorems *)

(** Closes a decidable goal about concrete data by evaluation. *)
Ltac by_computation :=
  match goal with
  | |- ?P => apply (bool_decide_unpack P); vm_compute; exact I
  end.

(** ** Theorems: ClassName builder *)

Lemma makeClassName_spec prefixed raw :
  makeClassName prefixed raw = spec_makeClassName prefixed raw.
Proof. reflexivity. Qed.

Lemma makeClassName_examples :
  makeClassName (Many [TString "panel"]) (Many [TString "active"]) = "dh-panel active"
  ∧ makeClassName (One (TString "panel")) (One TUndefined) = "dh-panel"
  ∧ makeClassName (Many [TString "panel"; TString ""; TNull]) (Many [TUndefined; TString "x"])
    = "dh-panel x".
Proof. repeat split; reflexivity. Qed.

(** C6 (the part that fails).  A falsy prefixed token is not dropped by
    [makeSelectorClassName]: it leaves a bare ["."] fragment, where the
    raw tokens of the same call, and both token sets of [makeClassName],
    are filtered. *)
Theorem makeSelectorClassName_keeps_falsy_prefixed :
  makeSelectorClassName (Many [TString "panel-item"; TString ""]) (Many []) = ".dh-panel-item,."
  ∧ spec_makeSelectorClassName (Many [TString "panel-item"; TString ""]) (Many [])
    = ".dh-panel-item"
  ∧ makeSelectorClassName (One TNull) (Many [TString "x"; TString ""]) = ".,.x".
Proof. repeat split; reflexivity. Qed.

(** The prefixed fragments of a selector, when every prefixed token is
    truthy, follow the specification. *)
Lemma makeSelectorClassName_spec prefixed raw :
  Forall (fun t => token_truthy t = true) (to_array prefixed) →
  makeSelectorClassName prefixed raw = spec_makeSelectorClassName prefixed raw.
Proof.
  intros Hall. unfold makeSelectorClassName, spec_makeSelectorClassName, spec_class_list.
  f_equal. rewrite map_app, !map_map. f_equal.
  induction Hall as [|t l Ht _ IH]; [done|].
  rewrite filter_cons_True by done. cbn [map]. f_equal; [|exact IH].
  unfold makeClassName. cbn [to_array]. rewrite filter_cons_True by done.
  rewrite filter_nil. reflexivity.
Qed.

Lemma makeSelectorClassName_examples :
  makeSelectorClassName (Many [TString "panel-item"; TString "panel-header"]) (One TUndefined)
    = ".dh-panel-item,.dh-panel-header"
  ∧ makeSelectorClassName (Many []) (Many [TString RULES.dataBindClass]) = ".data-bind-item"
  ∧ makeSelectorClassName (Many [TString "panel-item"]) (Many [TString "active"])
    = ".dh-panel-item,.active".
Proof. repeat split; reflexivity. Qed.

(** The selector [resolveItemData] hands to [closest]. *)
Lemma dataBind_selector :
  makeSelectorClassName (Many []) (Many [TString RULES.dataBindClass])
  = "." +:+ RULES.dataBindClass.
Proof. reflexivity. Qed.

(** ** Theorems: option merger *)

Lemma deepMerge_object target sm :
  deepMerge target (VObject sm)
  = VObject (map_fold (merge_body target) (spread target) sm).
Proof. reflexivity. Qed.

Lemma merge_fold_lookup target result sm key :
  map_fold (merge_body target) result sm !! key
  = match sm !! key with
    | Some sv =>
        Some (if mergeable sv
              then deepMerge (or_else (get target key) (VObject ∅)) sv
              else sv)
    | None => result !! key
    end.
Proof.
  apply (map_fold_weak_ind
           (fun r m => r !! key = match m !! key with
                                  | Some sv =>
                                      Some (if mergeable sv
                                            then deepMerge (or_else (get target key) (VObject ∅)) sv
                                            else sv)
                                  | None => result !! key
                                  end)).
  - by rewrite lookup_empty.
  - intros i x m r Hi IH. unfold merge_body.
    destruct (decide (i = key)) as [->|Hne].
    + rewrite lookup_insert_eq. destruct (mergeable x); by rewrite lookup_insert_eq.
    + rewrite (lookup_insert_ne m) by done. rewrite <- IH.
      destruct (mergeable x); by rewrite lookup_insert_ne.
Qed.

(** Every property of the result, read off the two inputs. *)
Lemma deepMerge_lookup tm sm key :
  spread (deepMerge (VObject tm) (VObject sm)) !! key
  = match sm !! key with
    | Some sv =>
        Some (if mergeable sv
              then deepMerge (or_else (get (VObject tm) key) (VObject ∅)) sv
              else sv)
    | None => tm !! key
    end.
Proof. rewrite deepMerge_object. cbn [spread]. apply merge_fold_lookup. Qed.

Lemma mergeable_object m : mergeable (VObject m) = true.
Proof. reflexivity. Qed.

Lemma mergeable_array l : mergeable (VArray l) = false.
Proof. reflexivity. Qed.

Lemma mergeable_inv v : mergeable v = true → ∃ m, v = VObject m.
Proof.
  intros H. destruct v; try (by eauto); exfalso; revert H;
    unfold mergeable; cbn [typeof_object isArray negb];
    rewrite ?andb_false_r; done.
Qed.

(** *** The merge on a store: what it writes to *)

Lemma preserved_refl h : Store.preserved h h.
Proof. by intros a o. Qed.

Lemma preserved_trans h1 h2 h3 :
  Store.preserved h1 h2 → Store.preserved h2 h3 → Store.preserved h1 h3.
Proof. intros H12 H23 a o Ha. by apply H23, H12. Qed.

Lemma alloc_fresh h o :
  h !! (Store.alloc h o).2 = None
  ∧ (Store.alloc h o).1 !! (Store.alloc h o).2 = Some o
  ∧ Store.preserved h (Store.alloc h o).1.
Proof.
  unfold Store.alloc. cbn [fst snd].
  assert (Hfresh : h !! fresh (dom h) = None) by apply not_elem_of_dom, is_fresh.
  split; [done|]. split; [apply lookup_insert_eq|].
  intros a o' Ha. rewrite lookup_insert_ne; [done|]. intros <-. congruence.
Qed.

Lemma preserved_write h0 h a key v :
  h0 !! a = None → Store.preserved h0 h → Store.preserved h0 (Store.write h a key v).
Proof.
  intros Ha Hp b o Hb. unfold Store.write. rewrite lookup_alter_ne; [by apply Hp|].
  intros <-. congruence.
Qed.

Lemma write_present h a key v b :
  is_Some (h !! b) → is_Some (Store.write h a key v !! b).
Proof.
  unfold Store.write. intros [o Ho]. destruct (decide (a = b)) as [->|Hne].
  - rewrite lookup_alter_eq, Ho. by eexists.
  - rewrite lookup_alter_ne, Ho by done. by eexists.
Qed.

Lemma or_empty_preserved h v : Store.preserved h (Store.or_empty h v).1.
Proof.
  unfold Store.or_empty. destruct (Store.truthy v); [apply preserved_refl|].
  pose proof (alloc_fresh h (Object false ∅)) as (_ & _ & Hp).
  by destruct (Store.alloc h (Object false ∅)).
Qed.

(** Whatever the depth, and whether or not the stack is exhausted on the
    way, every object that existed before the call is unchanged after it,
    and the object returned did not exist before. *)
Lemma deepMerge_store_preserved depth : ∀ h target source,
  Store.preserved h (Store.deepMerge depth h target source).1
  ∧ ∀ v, (Store.deepMerge depth h target source).2 = Some v →
         ∃ a, v = Ref a ∧ h !! a = None
              ∧ is_Some ((Store.deepMerge depth h target source).1 !! a).
Proof.
  induction depth as [|depth IH]; intros h target source.
  - cbn [Store.deepMerge fst snd]. split; [apply preserved_refl|by intros v [=]].
  - cbn [Store.deepMerge].
    pose proof (alloc_fresh h (Object false (Store.spread h target))) as (Hnew & Hat & Hp).
    destruct (Store.alloc h (Object false (Store.spread h target))) as [h1 result].
    cbn [fst snd] in *.
    set (body := fun (st : store * bool) (key : string) => _).
    assert (Hfold : ∀ keys st,
              Store.preserved h st.1 ∧ is_Some (st.1 !! result) →
              Store.preserved h (foldl body st keys).1
              ∧ is_Some ((foldl body st keys).1 !! result)).
    { induction keys as [|key keys IHkeys]; intros st Hst; [done|].
      cbn [foldl]. apply IHkeys. destruct st as [hc running]. cbn [fst] in *.
      destruct Hst as [Hpc Hrc]. unfold body.
      destruct running; [|done].
      destruct (Store.mergeable hc (Store.get hc source key)).
      - pose proof (or_empty_preserved hc (Store.get hc target key)) as Hoe.
        destruct (Store.or_empty hc (Store.get hc target key)) as [h2 tv].
        cbn [fst] in Hoe.
        destruct (IH h2 tv (Store.get hc source key)) as [Hsub _].
        destruct (Store.deepMerge depth h2 tv (Store.get hc source key)) as [h3 [merged|]];
          cbn [fst] in *.
        + split.
          * apply preserved_write; [done|].
            eapply preserved_trans; [|exact Hsub]. by eapply preserved_trans.
          * apply write_present. destruct Hrc as [o Ho]. exists o. by apply Hsub, Hoe.
        + split.
          * eapply preserved_trans; [|exact Hsub]. by eapply preserved_trans.
          * destruct Hrc as [o Ho]. exists o. by apply Hsub, Hoe.
      - split; [by apply preserved_write|by apply write_present]. }
    destruct (Hfold (map fst (map_to_list (Store.spread h1 source))) (h1, true))
      as [Hpf Hrf]; [split; [done|by eexists]|].
    destruct (foldl body (h1, true) _) as [hf running]. cbn [fst snd] in *.
    split; [done|]. intros v Hv. destruct running; [|done].
    injection Hv as <-. by exists result.
Qed.

(** *** The merge on a store: what it returns *)





















(** ** Theorems: renderers *)

Lemma slice0_take {A} (arr : list A) (n : nat) :
  slice0 arr (Num (Z.of_nat n)) = take n arr.
Proof.
  unfold slice0. destruct (Z.ltb_spec (Z.of_nat n) 0); [lia|]. by rewrite Nat2Z.id.
Qed.

Lemma slice0_length {A} (arr : list A) (n : nat) :
  length (slice0 arr (Num (Z.of_nat n))) = min n (length arr).
Proof. rewrite slice0_take. apply length_take. Qed.

Lemma createMapper_lookup schema data key :
  get (createMapper schema data) key
  = match schema !! key with
    | Some (MFunction f) => f data key
    | Some (MLiteral v) => v
    | None => VUndefined
    end.
Proof.
  unfold get, createMapper. cbn [spread]. rewrite map_lookup_imap.
  destruct (schema !! key) as [[f|v]|]; reflexivity.
Qed.

(** With a schema, both renderers map the records that the size lets
    through, each through the schema's fields. *)
Lemma viewData_schema schema data size :
  PanelRender.viewData (Some schema) data size
  = map (createMapper schema) (slice0 data size)
  ∧ ListView.viewData (Some schema) data size
    = map (createMapper schema) (slice0 data size).
Proof. split; reflexivity. Qed.

(** Without a schema, [ListView.draw] caps the raw data. *)
Lemma ListView_viewData_capped data (n : nat) :
  ListView.viewData None data (Num (Z.of_nat n)) = take n data.
Proof. apply slice0_take. Qed.

(** C5 (the part that fails).  Without a schema [PanelRender.render]
    passes the raw data through whole, whatever the size option; on six
    records and the default size 5 it renders six, where [ListView.draw]
    renders five. *)
Theorem PanelRender_viewData_not_capped :
  (∀ data size, PanelRender.viewData None data size = data)
  ∧ (let data := map (fun i => VNumber (Num i)) [0; 1; 2; 3; 4; 5]%Z in
     length (PanelRender.viewData None data (Num 5)) = 6%nat
     ∧ length (ListView.viewData None data (Num 5)) = 5%nat).
Proof. split; [reflexivity | split; reflexivity]. Qed.

(** C9.  A render entry point called with an identifier that names no
    element throws its [Error] at once and runs none of the statements
    after the lookup; when the element exists the lookup throws nothing
    and the call goes on with the element. *)
Theorem render_missing_root {A} (ids : gmap string node) (id : string)
    (rest : node → outcome A) :
  (getElementById ids id = None →
     PanelRender.render ids id rest = Thrown "Error" ("No panel element with id " +:+ id)
     ∧ ListView.init ids id rest = Thrown "Error" ("No listView element with id " +:+ id))
  ∧ (∀ el, getElementById ids id = Some el →
       PanelRender.render ids id rest = rest el ∧ ListView.init ids id rest = rest el).
Proof.
  unfold PanelRender.render, ListView.init. split.
  - intros ->. done.
  - intros el ->. done.
Qed.

Lemma render_missing_root_witness :
  PanelRender.render (A := nat) {[ "list" := Example.root ]} "panel" (fun _ => Returned 0%nat)
  = Thrown "Error" "No panel element with id panel"
  ∧ ListView.init (A := nat) {[ "list" := Example.root ]} "list" (fun _ => Returned 0%nat)
    = Returned 0%nat.
Proof.
  split.
  - apply (proj1 (render_missing_root (A := nat) {[ "list" := Example.root ]} "panel"
                    (fun _ => Returned 0%nat))). reflexivity.
  - apply (proj2 (render_missing_root (A := nat) {[ "list" := Example.root ]} "list"
                    (fun _ => Returned 0%nat)) Example.root). reflexivity.
Defined.

(** ** Theorems: item data resolution *)


Lemma closest_Some d c n a :
  closest d c n = Some a → has_class d a c = true ∧ a `suffix_of` n.
Proof.
  induction n as [|i p IH]; cbn [closest].
  - destruct (has_class d [] c) eqn:H; [|done]. by intros [= <-].
  - destruct (has_class d (i :: p) c) eqn:H.
    + by intros [= <-].
    + intros [Ha Hs]%IH. split; [done|]. by apply suffix_cons_r.
Qed.

(** From anywhere below an item, however deep, [closest] finds the item,
    as long as no element on the way carries the class itself. *)
Lemma closest_item d c item below :
  has_class d item c = true →
  (∀ b, b ≠ [] → b `suffix_of` below → has_class d (b ++ item) c = false) →
  closest d c (below ++ item) = Some item.
Proof.
  intros Hitem. induction below as [|i below IH]; intros Hfree.
  - destruct item; cbn [app closest]; by rewrite Hitem.
  - pose proof (Hfree (i :: below) ltac:(done) ltac:(done)) as Hi.
    cbn [app closest] in *. rewrite Hi.
    apply IH. intros b Hb Hs. apply Hfree; [done|]. by apply suffix_cons_r.
Qed.

Lemma at_index_lookup (viewData : list value) (k : nat) record :
  viewData !! k = Some record → at_index viewData (Z.of_nat k) = record.
Proof.
  intros H. unfold at_index. destruct (Z.ltb_spec (Z.of_nat k) 0); [lia|].
  by rewrite Nat2Z.id, H.
Qed.



(** ** Lists: [find], and grouping by key *)














(** ** Theorems: the event delegation engine *)

Lemma filter_all {A} (P : A → Prop) `{!∀ x, Decision (P x)} (l : list A) :
  (∀ x, P x) → filter P l = l.
Proof.
  intros HP. induction l as [|x l IH]; [done|]. by rewrite filter_cons_True, IH.
Qed.

Section engine_facts.
Context (matches : document → node → string → bool).


(** *** What each operation leaves alone *)

Lemma listeners_on_insert w l el el' :
  listeners_on (set_listeners w (<[el := l]> (listeners w))) el'
  = if decide (el = el') then l else listeners_on w el'.
Proof.
  unfold listeners_on. cbn. destruct (decide (el = el')) as [->|Hne].
  - by rewrite lookup_insert_eq.
  - by rewrite lookup_insert_ne.
Qed.

Lemma removeEventListener_listeners w el ty l el' :
  listeners_on (removeEventListener w el ty l) el'
  = if decide (el = el')
    then filter (fun x => same_listener ty l x = false) (listeners_on w el)
    else listeners_on w el'.
Proof. apply listeners_on_insert. Qed.

Lemma addEventListener_listeners w el ty l el' :
  (∀ x, x ∈ listeners_on w el → fn_id x.2 ≠ fn_id l) →
  listeners_on (addEventListener w el ty l) el'
  = if decide (el = el') then listeners_on w el ++ [(ty, l)] else listeners_on w el'.
Proof.
  intros Hfresh. unfold addEventListener.
  destruct (existsb _ _) eqn:Hex.
  - apply existsb_exists in Hex as (x & Hx & Hsame).
    unfold same_listener in Hsame. apply andb_true_iff in Hsame as [_ Hid].
    apply bool_decide_eq_true in Hid. apply list_elem_of_In in Hx.
    by destruct (Hfresh x Hx).
  - apply listeners_on_insert.
Qed.

Lemma addEventListener_rest w el ty l :
  let w' := addEventListener w el ty l in
  doc w' = doc w ∧ EVENT_STORE w' = EVENT_STORE w ∧ cells w' = cells w
  ∧ arrays w' = arrays w ∧ next_id w' = next_id w.
Proof. unfold addEventListener. by destruct (existsb _ _). Qed.

(** [unbindEvents] on a record: the listeners of [el] that some entry
    names are gone; the store, the cells and other elements' listeners
    are as before. *)
Lemma unbind_fold el record : ∀ w,
  let w' := foldl (unbind_entry matches el) w record in
  EVENT_STORE w' = EVENT_STORE w ∧ cells w' = cells w ∧ arrays w' = arrays w
  ∧ next_id w' = next_id w
  ∧ (∀ el', el' ≠ el → listeners_on w' el' = listeners_on w el')
  ∧ listeners_on w' el
    = filter (fun x => forallb (fun s => negb (same_listener (s_type s) (s_listener s) x))
                               record = true)
             (listeners_on w el).
Proof.
  induction record as [|s record IH]; intros w; cbn [foldl].
  - repeat split; try done. cbn [forallb]. by rewrite filter_all.
  - specialize (IH (unbind_entry matches el w s)). cbn zeta in IH.
    destruct IH as (Hs & Hc & Ha & Hn & Hother & Hel).
    assert (Hentry : ∀ el', listeners_on (unbind_entry matches el w s) el'
              = listeners_on (removeEventListener w el (s_type s) (s_listener s)) el').
    { intros el'. unfold unbind_entry. by destruct (s_selectors s). }
    assert (Hrest : EVENT_STORE (unbind_entry matches el w s) = EVENT_STORE w
              ∧ cells (unbind_entry matches el w s) = cells w
              ∧ arrays (unbind_entry matches el w s) = arrays w
              ∧ next_id (unbind_entry matches el w s) = next_id w).
    { unfold unbind_entry. by destruct (s_selectors s). }
    destruct Hrest as (Hs' & Hc' & Ha' & Hn').
    repeat split; try congruence.
    + intros el' Hne. rewrite Hother, Hentry, removeEventListener_listeners by done.
      by rewrite decide_False.
    + rewrite Hel, Hentry, removeEventListener_listeners, decide_True by done.
      rewrite list_filter_filter. apply list_filter_iff. intros x. cbn [forallb].
      rewrite andb_true_iff, negb_true_iff. tauto.
Qed.
Lemma unbindEvents_effect w el :
  let w' := unbindEvents matches w (Some el) in
  EVENT_STORE w' = EVENT_STORE w ∧ cells w' = cells w ∧ arrays w' = arrays w
  ∧ next_id w' = next_id w
  ∧ (∀ el', el' ≠ el → listeners_on w' el' = listeners_on w el')
  ∧ listeners_on w' el
    = match EVENT_STORE w !! el with
      | Some record =>
          filter (fun x => forallb (fun s => negb (same_listener (s_type s) (s_listener s) x))
                                   record = true)
                 (listeners_on w el)
      | None => listeners_on w el
      end.
Proof.
  cbn [unbindEvents]. destruct (EVENT_STORE w !! el) as [record|]; [|done].
  apply unbind_fold.
Qed.

Lemma sort_fold el eventList : ∀ w selectorMap elEvents,
  ∃ d,
    foldl (sort_event matches el) (w, selectorMap, elEvents) eventList
    = (set_doc w d,
       foldl (fun m ev => if no_selector ev then m
                          else push_at (default "" (selector ev)) ev m)
             selectorMap eventList,
       elEvents ++ elEvents_of eventList).
Proof.
  induction eventList as [|ev eventList IH]; intros w selectorMap elEvents.
  - exists (doc w). cbn [foldl]. destruct w. unfold elEvents_of.
    by rewrite filter_nil, app_nil_r.
  - cbn [foldl]. unfold sort_event at 2. unfold elEvents_of.
    destruct (no_selector ev) eqn:Hev.
    + destruct (IH w selectorMap (elEvents ++ [ev])) as [d ->]. exists d.
      rewrite filter_cons_True by done. by rewrite <- app_assoc.
    + destruct (IH (set_doc w (mark matches el (doc w) (default "" (selector ev))))
                  (push_at (default "" (selector ev)) ev selectorMap) elEvents) as [d ->].
      exists d. rewrite filter_cons_False by (by rewrite Hev). done.
Qed.

Lemma register_step el viewData w recorded ty eventList :
  (∀ x, x ∈ listeners_on w el → (fn_id x.2 < next_id w)%nat) →
  ∃ w' s,
    register matches el viewData (w, recorded) (ty, eventList) = (w', recorded ++ [s])
    ∧ delegate_entry el viewData (ty, eventList) s
    ∧ fn_id (s_listener s) = next_id w
    ∧ next_id w' = S (next_id w)
    ∧ listeners_on w' el = listeners_on w el ++ [entry_pair s]
    ∧ (∀ el', el' ≠ el → listeners_on w' el' = listeners_on w el')
    ∧ EVENT_STORE w' = EVENT_STORE w ∧ cells w' = cells w ∧ arrays w' = arrays w.
Proof.
  intros Hfresh. unfold register.
  destruct (sort_fold el eventList w [] []) as [d ->]. cbn [app].
  set (l := Listener (next_id (set_doc w d)) _).
  set (w1 := set_next (set_doc w d) _).
  assert (Hon : ∀ el', listeners_on w1 el' = listeners_on w el') by done.
  assert (Hl : ∀ x, x ∈ listeners_on w1 el → fn_id x.2 ≠ fn_id l).
  { intros x Hx. rewrite Hon in Hx. apply Hfresh in Hx. cbn. lia. }
  pose proof (addEventListener_listeners w1 el ty l) as Hadd.
  pose proof (addEventListener_rest w1 el ty l) as (Hd & Hs & Hc & Ha & Hn).
  eexists _, _. split; [reflexivity|].
  repeat split; try done.
  - rewrite (Hadd el Hl), decide_True by done. by rewrite Hon.
  - intros el' Hne. rewrite (Hadd el' Hl), decide_False by done. apply Hon.
Qed.

Lemma register_fold el viewData grouped : ∀ w recorded,
  (∀ x, x ∈ listeners_on w el → (fn_id x.2 < next_id w)%nat) →
  ∃ w' delegates,
    foldl (register matches el viewData) (w, recorded) grouped = (w', recorded ++ delegates)
    ∧ Forall2 (delegate_entry el viewData) grouped delegates
    ∧ (next_id w ≤ next_id w')%nat
    ∧ (∀ x, x ∈ listeners_on w' el → (fn_id x.2 < next_id w')%nat)
    ∧ listeners_on w' el = listeners_on w el ++ map entry_pair delegates
    ∧ (∀ el', el' ≠ el → listeners_on w' el' = listeners_on w el')
    ∧ EVENT_STORE w' = EVENT_STORE w ∧ cells w' = cells w ∧ arrays w' = arrays w.
Proof.
  induction grouped as [|[ty eventList] grouped IH]; intros w recorded Hfresh.
  - exists w, []. cbn [foldl map]. rewrite !app_nil_r. repeat split; done.
  - cbn [foldl].
    destruct (register_step el viewData w recorded ty eventList Hfresh)
      as (w1 & s & -> & Hs & Hid & Hn1 & Hl1 & Ho1 & Hst1 & Hc1 & Ha1).
    destruct (IH w1 (recorded ++ [s])) as (w' & delegates & -> & HF & Hn & Hfr & Hl & Ho & Hst & Hc & Ha).
    { intros x Hx. rewrite Hl1 in Hx. apply elem_of_app in Hx as [Hx|Hx].
      - apply Hfresh in Hx. lia.
      - apply list_elem_of_singleton in Hx as ->. cbn. lia. }
    exists w', (s :: delegates). rewrite <- app_assoc. cbn [app].
    repeat split; try congruence.
    + by constructor.
    + lia.
    + exact Hfr.
    + rewrite Hl, Hl1. cbn [map]. by rewrite <- app_assoc.
    + intros el' Hne. by rewrite Ho, Ho1.
Qed.

Lemma hover_effect w el :
  (∀ x, x ∈ listeners_on w el → (fn_id x.2 < next_id w)%nat) →
  let w' := enableNearestHover w (Some el) in
  ∃ h,
    hover_entries el (next_id w) h
    ∧ listeners_on w' el = listeners_on w el ++ map entry_pair h
    ∧ (∀ el', el' ≠ el → listeners_on w' el' = listeners_on w el')
    ∧ EVENT_STORE w' = <[el := default [] (EVENT_STORE w !! el) ++ h]> (EVENT_STORE w)
    ∧ cells w' = <[next_id w := None]> (cells w)
    ∧ doc w' = doc w ∧ arrays w' = arrays w
    ∧ next_id w' = S (S (S (next_id w)))
    ∧ (∀ x, x ∈ listeners_on w' el → (fn_id x.2 < next_id w')%nat).
Proof.
  intros Hfresh. cbn [enableNearestHover].
  set (over := Listener (S (next_id w)) _).
  set (out := Listener (S (S (next_id w))) _).
  set (w1 := set_next _ _).
  assert (Hon1 : ∀ el', listeners_on w1 el' = listeners_on w el') by done.
  assert (Hover : ∀ x, x ∈ listeners_on w1 el → fn_id x.2 ≠ fn_id over).
  { intros x Hx. rewrite Hon1 in Hx. apply Hfresh in Hx. cbn. lia. }
  pose proof (addEventListener_listeners w1 el "mouseover" over) as Hadd1.
  pose proof (addEventListener_rest w1 el "mouseover" over) as (Hd1 & Hs1 & Hc1 & Ha1 & Hn1).
  set (w2 := addEventListener w1 el "mouseover" over) in *.
  assert (Hout : ∀ x, x ∈ listeners_on w2 el → fn_id x.2 ≠ fn_id out).
  { intros x Hx. rewrite (Hadd1 el Hover), decide_True, Hon1 in Hx by done.
    apply elem_of_app in Hx as [Hx|Hx].
    - apply Hfresh in Hx. cbn. lia.
    - apply list_elem_of_singleton in Hx as ->. cbn. lia. }
  pose proof (addEventListener_listeners w2 el "mouseout" out) as Hadd2.
  pose proof (addEventListener_rest w2 el "mouseout" out) as (Hd2 & Hs2 & Hc2 & Ha2 & Hn2).
  set (w3 := addEventListener w2 el "mouseout" out) in *.
  assert (Hl3 : listeners_on w3 el
                = listeners_on w el ++ [("mouseover", over); ("mouseout", out)]).
  { rewrite (Hadd2 el Hout), decide_True by done.
    rewrite (Hadd1 el Hover), decide_True, Hon1 by done. by rewrite <- app_assoc. }
  eexists. split; [by eexists _, _|].
  repeat split.
  - exact Hl3.
  - intros el' Hne. change (listeners_on w3 el' = listeners_on w el').
    rewrite (Hadd2 el' Hout), decide_False by done.
    rewrite (Hadd1 el' Hover), decide_False by done. apply Hon1.
  - cbn. by rewrite Hs2, Hs1.
  - cbn. by rewrite Hc2, Hc1.
  - cbn. by rewrite Hd2, Hd1.
  - cbn. by rewrite Ha2, Ha1.
  - cbn. by rewrite Hn2, Hn1.
  - intros x. change (x ∈ listeners_on w3 el → (fn_id x.2 < next_id w3)%nat).
    rewrite Hl3, Hn2, Hn1. cbn [w1 next_id set_next]. intros Hx.
    apply elem_of_app in Hx as [Hx|Hx].
    + apply Hfresh in Hx. lia.
    + apply elem_of_cons in Hx as [->|Hx]; [cbn; lia|].
      apply list_elem_of_singleton in Hx as ->. cbn. lia.
Qed.

Lemma group_by_type_snoc events ev :
  group_by_type (events ++ [ev])
  = group_by_type events ≫= fun acc =>
      if bool_decide (type ev ∈ Object_prototype) then None
      else Some (push_at (type ev) ev acc).
Proof. unfold group_by_type. by rewrite foldl_app. Qed.

Lemma group_by_type_accepts events :
  if forallb valid_type events then is_Some (group_by_type events)
  else group_by_type events = None.
Proof.
  induction events as [|ev events IH] using rev_ind; [by eexists|].
  rewrite forallb_app, group_by_type_snoc. cbn [forallb]. rewrite andb_true_r.
  destruct (forallb valid_type events).
  - destruct IH as [acc ->]. cbn. unfold valid_type.
    destruct (bool_decide (type ev ∈ Object_prototype)); cbn; [done|by eexists].
  - by rewrite IH.
Qed.

(** *** The invariant of a history *)

Lemma filter_recorded record (l : list (string * listener)) :
  (∀ x, x ∈ l → ∃ s, s ∈ record ∧ same_listener (s_type s) (s_listener s) x = true) →
  filter (fun x => forallb (fun s => negb (same_listener (s_type s) (s_listener s) x))
                           record = true) l = [].
Proof.
  induction l as [|x l IH]; [done|]. intros H.
  rewrite filter_cons_False.
  - apply IH. intros y Hy. apply H. by right.
  - intros Hall. destruct (H x) as (s & Hs & Hsame); [by left|].
    rewrite forallb_forall in Hall. apply list_elem_of_In, Hall in Hs.
    by rewrite Hsame in Hs.
Qed.

Lemma same_listener_entry s :
  same_listener (s_type s) (s_listener s) (entry_pair s) = true.
Proof.
  unfold same_listener, entry_pair. cbn. by rewrite !bool_decide_eq_true_2.
Qed.

Lemma unbind_clears w el b :
  consistent w el b → listeners_on (unbindEvents matches w (Some el)) el = [].
Proof.
  intros [_ Hb]. destruct (unbindEvents_effect w el) as (_ & _ & _ & _ & _ & ->).
  destruct b as [[events viewData]|].
  - destruct Hb as (record & -> & -> & _). apply filter_recorded.
    intros x (s & -> & Hs)%list_elem_of_fmap. exists s. split; [done|].
    apply same_listener_entry.
  - rewrite Hb. by destruct (EVENT_STORE w !! el).
Qed.

Lemma bindEvents_accepted w el events viewData b :
  consistent w el b → accepted events = true →
  let w' := (bindEvents matches w (Some el) events viewData).1 in
  (bindEvents matches w (Some el) events viewData).2 = Normal
  ∧ consistent w' el (Some (events, viewData))
  ∧ (next_id w ≤ next_id w')%nat
  ∧ arrays w' = arrays w
  ∧ (∀ el', el' ≠ el →
       listeners_on w' el' = listeners_on w el'
       ∧ EVENT_STORE w' !! el' = EVENT_STORE w !! el').
Proof.
  intros Hw Hacc. apply andb_true_iff in Hacc as [Hne Hvalid].
  apply negb_true_iff, bool_decide_eq_false in Hne.
  pose proof (group_by_type_accepts events) as Hg. rewrite Hvalid in Hg.
  destruct Hg as [grouped Hg].
  pose proof (unbind_clears w el b Hw) as Hclear.
  destruct (unbindEvents_effect w el) as (Hs0 & Hc0 & Ha0 & Hn0 & Ho0 & _).
  unfold bindEvents. destruct events as [|ev events]; [done|].
  set (w0 := unbindEvents matches w (Some el)) in *. rewrite Hg.
  destruct (register_fold el viewData grouped w0 [])
    as (w1 & delegates & -> & HF & Hn1 & Hfr1 & Hl1 & Ho1 & Hs1 & Hc1 & Ha1).
  { rewrite Hclear. intros x Hx. by apply elem_of_nil in Hx. }
  cbn [app]. set (w2 := set_store w1 _).
  destruct (hover_effect w2 el) as (h & Hh & Hl3 & Ho3 & Hs3 & Hc3 & Hd3 & Ha3 & Hn3 & Hfr3).
  { exact Hfr1. }
  cbn [fst snd]. set (w3 := enableNearestHover w2 (Some el)) in *.
  split; [done|]. split; [split|].
  - exact Hfr3.
  - exists (delegates ++ h). split; [|split].
    + rewrite Hs3. cbn [w2 EVENT_STORE set_store]. rewrite lookup_insert_eq.
      by rewrite lookup_insert_eq.
    + rewrite Hl3. change (listeners_on w2 el) with (listeners_on w1 el).
      rewrite Hl1, Hclear. by rewrite map_app.
    + by exists grouped, delegates, (next_id w2), h.
  - repeat split.
    + rewrite Hn3. cbn [w2 next_id set_store]. lia.
    + rewrite Ha3. cbn [w2 arrays set_store]. congruence.
    + rewrite Ho3 by done. change (listeners_on w2 el') with (listeners_on w1 el').
      rewrite Ho1 by done. by apply Ho0.
    + rewrite Hs3, lookup_insert_ne by done. cbn [w2 EVENT_STORE set_store].
      rewrite lookup_insert_ne by done. congruence.
Qed.

Lemma bindEvents_rejected w el events viewData :
  events ≠ [] → accepted events = false →
  ∃ message,
    bindEvents matches w (Some el) events viewData
    = (unbindEvents matches w (Some el), Throw "TypeError" message).
Proof.
  intros Hne Hacc. unfold accepted in Hacc.
  rewrite bool_decide_eq_false_2 in Hacc by done. cbn in Hacc.
  pose proof (group_by_type_accepts events) as Hg. rewrite Hacc in Hg.
  unfold bindEvents. destruct events as [|ev events]; [done|].
  rewrite Hg. by eexists.
Qed.

Lemma consistent_other w w' el b :
  listeners_on w' el = listeners_on w el →
  EVENT_STORE w' !! el = EVENT_STORE w !! el →
  (next_id w ≤ next_id w')%nat →
  consistent w el b → consistent w' el b.
Proof.
  intros Hl Hs Hn [Hfresh Hb]. split.
  - intros x Hx. rewrite Hl in Hx. apply Hfresh in Hx. lia.
  - destruct b as [[events viewData]|]; rewrite Hl; [|done]. by rewrite Hs.
Qed.

Lemma invoke_frame w l e :
  let w' := (invoke matches w l e).1 in
  listeners w' = listeners w ∧ EVENT_STORE w' = EVENT_STORE w
  ∧ arrays w' = arrays w ∧ next_id w' = next_id w.
Proof.
  unfold invoke, mouseOver, mouseOut, deactivate.
  destruct (fn_body l); cbn [fst]; repeat case_match; done.
Qed.

Lemma deliver_frame w el e :
  let w' := (deliver matches w el e).1 in
  listeners w' = listeners w ∧ EVENT_STORE w' = EVENT_STORE w
  ∧ arrays w' = arrays w ∧ next_id w' = next_id w.
Proof.
  unfold deliver. generalize (@nil call).
  generalize (map snd (filter (fun x => x.1 = e_type e) (listeners_on w el))).
  intros ls. revert w. induction ls as [|l ls IH]; intros w calls; [done|].
  cbn [foldl]. pose proof (invoke_frame w l e) as Hi.
  destruct (invoke matches w l e) as [w1 more]. cbn [fst] in Hi.
  destruct Hi as (Hl & Hs & Ha & Hn).
  destruct (IH w1 (calls ++ more)) as (Hl' & Hs' & Ha' & Hn').
  repeat split; congruence.
Qed.

Lemma step_consistent w o (B : node → option (list EventSpec * nat)) :
  (∀ el, consistent w el (B el)) →
  ∀ el, consistent (step matches w o) el (track el (B el) o).
Proof.
  intros Hw el. destruct o as [[el'|] events viewData|[el'|]|el' e|d|a items];
    cbn [step track]; try apply Hw.
  - (* bind *)
    destruct events as [|ev events].
    { assert (track_nil : (if bool_decide (el' = el) then B el else B el) = B el)
        by (by destruct (bool_decide _)).
      rewrite track_nil. apply Hw. }
    set (evs := ev :: events).
    destruct (accepted evs) eqn:Hacc.
    + destruct (bindEvents_accepted w el' evs viewData _ (Hw el') Hacc)
        as (_ & Hc & Hn & _ & Ho).
      case_bool_decide as Heq; [by subst|].
      destruct (Ho el) as [Hl Hs]; [done|].
      by apply (consistent_other w).
    + destruct (bindEvents_rejected w el' evs viewData) as [msg ->]; [done..|].
      cbn [fst]. destruct (unbindEvents_effect w el') as (Hs0 & _ & _ & Hn0 & Ho0 & _).
      case_bool_decide as Heq.
      * subst. split.
        -- rewrite (unbind_clears _ _ _ (Hw el)). intros x Hx. by apply elem_of_nil in Hx.
        -- apply (unbind_clears _ _ _ (Hw el)).
      * apply (consistent_other w); [by apply Ho0|by rewrite Hs0|lia|apply Hw].
  - (* unbind *)
    destruct (unbindEvents_effect w el') as (Hs0 & _ & _ & Hn0 & Ho0 & _).
    case_bool_decide as Heq.
    + subst. split.
      * rewrite (unbind_clears _ _ _ (Hw el)). intros x Hx. by apply elem_of_nil in Hx.
      * apply (unbind_clears _ _ _ (Hw el)).
    + apply (consistent_other w); [by apply Ho0|by rewrite Hs0|lia|apply Hw].
  - (* dispatch *)
    destruct (deliver_frame w el' e) as (Hl & Hs & _ & Hn).
    apply (consistent_other w); [unfold listeners_on; by rewrite Hl|by rewrite Hs|lia|apply Hw].
Qed.

Lemma history_consistent d arrays history el :
  consistent (run matches (initial d arrays) history) el (binding el history).
Proof.
  revert el. induction history as [|o history IH] using rev_ind; intros el.
  - split; [|done]. intros x Hx. by apply elem_of_nil in Hx.
  - unfold run, binding. rewrite !foldl_app. cbn [foldl].
    apply (step_consistent _ o (fun el => binding el history)). exact IH.
Qed.

(** *** Listeners per event type *)








(** *** Unbinding and the marker class *)

Lemma classes_remove d t c n :
  classes (classList_remove d t c) n
  = if decide (t = n) then classes d n ∖ {[c]} else classes d n.
Proof.
  unfold classes, classList_remove. rewrite lookup_alter.
  destruct (decide (t = n)) as [->|Hne]; [|done].
  destruct (d !! n) as [e|]; cbn; [done|]. set_solver.
Qed.

Lemma classes_add d t c n :
  classes (classList_add d t c) n
  = if decide (t = n)
    then match d !! n with Some _ => {[c]} ∪ classes d n | None => ∅ end
    else classes d n.
Proof.
  unfold classes, classList_add. rewrite lookup_alter.
  destruct (decide (t = n)) as [->|Hne]; [|done].
  by destruct (d !! n) as [e|].
Qed.

Lemma unmarked_lookup d n :
  unmarked d !! n
  = (fun e => Element (classList e ∖ {[RULES.eventClass]}) (dataset_index e) (_uiIndex e))
      <$> d !! n.
Proof. unfold unmarked. by rewrite lookup_fmap. Qed.

Lemma unmarked_remove d t : unmarked (classList_remove d t RULES.eventClass) = unmarked d.
Proof.
  apply map_eq. intros n. rewrite !unmarked_lookup. unfold classList_remove.
  rewrite lookup_alter. destruct (decide (t = n)) as [->|Hne]; [|done].
  destruct (d !! n) as [e|]; cbn; [|done]. do 2 f_equal. set_solver.
Qed.

Lemma unmarked_add d t : unmarked (classList_add d t RULES.eventClass) = unmarked d.
Proof.
  apply map_eq. intros n. rewrite !unmarked_lookup. unfold classList_add.
  rewrite lookup_alter. destruct (decide (t = n)) as [->|Hne]; [|done].
  destruct (d !! n) as [e|]; cbn; [|done]. do 2 f_equal. set_solver.
Qed.





Lemma remove_all_unmarked targets : ∀ d,
  unmarked (foldl (fun d t => classList_remove d t RULES.eventClass) d targets) = unmarked d.
Proof.
  induction targets as [|t targets IH]; intros d; [done|].
  cbn [foldl]. by rewrite IH, unmarked_remove.
Qed.


Lemma unbind_fold_doc el record : ∀ w,
  doc (foldl (unbind_entry matches el) w record)
  = foldl (unmark matches el) (doc w) (recorded_selectors record).
Proof.
  induction record as [|s record IH]; intros w; [done|].
  cbn [foldl recorded_selectors flat_map]. rewrite foldl_app, IH. f_equal.
  unfold unbind_entry. by destruct (s_selectors s).
Qed.


Lemma unmark_fold_unmarked el sels : ∀ d,
  unmarked (foldl (unmark matches el) d sels) = unmarked d.
Proof.
  induction sels as [|sel sels IH]; intros d; [done|].
  cbn [foldl]. rewrite IH. apply remove_all_unmarked.
Qed.



Lemma classes_unmarked d n :
  classes (unmarked d) n = classes d n ∖ {[RULES.eventClass]}.
Proof.
  unfold classes. rewrite unmarked_lookup. destruct (d !! n) as [e|]; cbn; [done|].
  set_solver.
Qed.

(** *** Dispatch *)











End engine_facts.

(** C10.  [bindEvents] with no root, or with an empty event list, returns
    at once and changes nothing: the listeners, the binding records, the
    hover state and the document are as before, and no unbind has run. On
    the bound example page an unbind would have removed the listeners. *)
Theorem bindEvents_nothing_to_bind :
  (∀ matches w el events viewData,
     bindEvents matches w None events viewData = (w, Normal)
     ∧ bindEvents matches w el [] viewData = (w, Normal))
  ∧ listeners_on (unbindEvents Example.class_matches Example.bound (Some Example.root))
                 Example.root
    ≠ listeners_on Example.bound Example.root.
Proof.
  split.
  - intros matches w el events viewData. split; [done|]. by destruct el.
  - vm_compute. discriminate.
Qed.










(** ** Theorems: the hover sub-engine *)

Lemma closest_present d c n t : closest d c n = Some t → is_Some (d !! t).
Proof.
  intros [Ht _]%closest_Some. unfold has_class, classes in Ht.
  apply bool_decide_eq_true in Ht. destruct (d !! t); [by eexists|set_solver].
Qed.

Lemma current_set w d cell v c :
  current (set_cells (set_doc w d) (<[cell := v]> (cells w))) c
  = if decide (cell = c) then v else current w c.
Proof.
  unfold current. cbn. destruct (decide (cell = c)) as [->|Hne].
  - by rewrite lookup_insert_eq.
  - by rewrite lookup_insert_ne.
Qed.

Lemma mouseOver_enter w el cell e t :
  closest (doc w) RULES.eventClass (target e) = Some t →
  contains el t = true →
  let w' := mouseOver w el cell e in
  current w' cell = Some t
  ∧ RULES.eventActiveClass ∈ classes (doc w') t
  ∧ (∀ c, current w cell = Some c → c ≠ t →
          RULES.eventActiveClass ∉ classes (doc w') c)
  ∧ (∀ n, n ≠ t → current w cell ≠ Some n → classes (doc w') n = classes (doc w) n).
Proof.
  intros Ht Hin. pose proof (closest_present _ _ _ _ Ht) as [elem Helem].
  unfold mouseOver. rewrite Ht, Hin. cbn [negb].
  set (d1 := match current w cell with
             | Some c => if bool_decide (c ≠ t)
                         then classList_remove (doc w) c RULES.eventActiveClass
                         else doc w
             | None => doc w
             end).
  assert (Hd1 : is_Some (d1 !! t)).
  { unfold d1. destruct (current w cell) as [c|]; [|by eexists].
    case_bool_decide; [|by eexists]. unfold classList_remove.
    rewrite lookup_alter_ne by done. by eexists. }
  assert (Hc1 : ∀ n, classes d1 n
                     = if decide (current w cell = Some n ∧ n ≠ t)
                       then classes (doc w) n ∖ {[RULES.eventActiveClass]}
                       else classes (doc w) n).
  { intros n. unfold d1. destruct (current w cell) as [c|].
    - case_bool_decide as Hct.
      + rewrite classes_remove. destruct (decide (c = n)) as [->|Hne].
        * by rewrite decide_True.
        * rewrite decide_False; [done|]. intros [[= ?] _]. done.
      + subst c. rewrite decide_False; [done|].
        intros [[= ?] ?]. done.
    - by rewrite decide_False by (by intros [? _]). }
  cbn zeta. rewrite current_set, decide_True by done. cbn [doc set_cells set_doc].
  split; [done|]. split; [|split].
  - rewrite classes_add, decide_True by done. destruct Hd1 as [? ->]. set_solver.
  - intros c Hc Hne. rewrite classes_add, decide_False by done.
    rewrite Hc1, decide_True by done. set_solver.
  - intros n Hne Hcur. rewrite classes_add, decide_False by done.
    rewrite Hc1, decide_False; [done|]. by intros [? _].
Qed.

Lemma mouseOver_ignored w el cell e :
  (closest (doc w) RULES.eventClass (target e) = None
   ∨ ∃ t, closest (doc w) RULES.eventClass (target e) = Some t ∧ contains el t = false) →
  mouseOver w el cell e = w.
Proof.
  unfold mouseOver. intros [->|(t & -> & ->)]; done.
Qed.

Lemma mouseOut_rule w el cell e :
  mouseOut w el cell e
  = match current w cell with
    | Some c => if leaves w c e then deactivate w cell c else w
    | None => w
    end.
Proof.
  unfold mouseOut, leaves. destruct (current w cell) as [c|]; [|done].
  destruct (relatedTarget e) as [related|]; [|done].
  destruct (contains c related); [done|]. cbn [negb andb].
  destruct (closest (doc w) RULES.eventClass related) eqn:Hc.
  - by rewrite bool_decide_eq_false_2.
  - by rewrite bool_decide_eq_true_2.
Qed.

Lemma deactivate_rule w cell c :
  one_active w cell → current w cell = Some c →
  let w' := deactivate w cell c in
  current w' cell = None ∧ ∀ n, RULES.eventActiveClass ∉ classes (doc w') n.
Proof.
  intros Hone Hc. unfold deactivate. cbn zeta.
  rewrite current_set, decide_True by done. split; [done|].
  intros n. cbn [doc set_cells set_doc]. rewrite classes_remove.
  destruct (decide (c = n)) as [->|Hne]; [set_solver|].
  intros Hn. apply Hone in Hn. congruence.
Qed.

Lemma hover_step_one_active el cell w p :
  one_active w cell → one_active (hover_step el cell w p) cell.
Proof.
  intros Hone. destruct p as [e|e]; cbn [hover_step].
  - destruct (closest (doc w) RULES.eventClass (target e)) as [t|] eqn:Ht;
      [|by rewrite mouseOver_ignored by (by left)].
    destruct (contains el t) eqn:Hin;
      [|by rewrite mouseOver_ignored by (right; by exists t)].
    destruct (mouseOver_enter w el cell e t Ht Hin) as (Hcur & Hact & Hold & Hrest).
    intros n. rewrite Hcur. destruct (decide (n = t)) as [->|Hne]; [done|].
    split; [|by intros [= ?]]. intros Hn. exfalso.
    destruct (decide (current w cell = Some n)) as [Hc|Hc].
    + by apply (Hold n Hc Hne).
    + rewrite (Hrest n Hne Hc) in Hn. by apply Hone in Hn.
  - rewrite mouseOut_rule. destruct (current w cell) as [c|] eqn:Hc; [|done].
    destruct (leaves w c e); [|done].
    destruct (deactivate_rule w cell c Hone Hc) as [Hcur Hnone].
    intros n. rewrite Hcur. split; [|done]. intros Hn. by destruct (Hnone n).
Qed.

Lemma hover_run_one_active el cell ps : ∀ w,
  one_active w cell → one_active (hover_run el cell w ps) cell.
Proof.
  induction ps as [|p ps IH]; intros w Hone; [done|].
  apply IH. by apply hover_step_one_active.
Qed.

(** C8, as amended.  One variable, [currentActive], per enabled root.
    Enter: when the nearest marker-class element above the target exists
    and lies within the root, it becomes [currentActive] and carries the
    active class, the element that was active before (if another) has
    lost it, and no other element's classes change; when there is no such
    element, or it lies outside the root, nothing changes.  Leave: the
    active class is removed and [currentActive] cleared exactly when
    [currentActive] is set and the destination is absent, or is neither
    inside [currentActive] nor inside any marker-class element.
    Invariant: from a state in which the elements carrying the active
    class are exactly [currentActive], every sequence of enter and leave
    events keeps it so; at most one element carries the active class. *)
Theorem hover_rule (w : world) (el : node) (cell : nat) :
  (∀ e t,
     closest (doc w) RULES.eventClass (target e) = Some t →
     contains el t = true →
     let w' := mouseOver w el cell e in
     current w' cell = Some t
     ∧ RULES.eventActiveClass ∈ classes (doc w') t
     ∧ (∀ c, current w cell = Some c → c ≠ t →
             RULES.eventActiveClass ∉ classes (doc w') c)
     ∧ (∀ n, n ≠ t → current w cell ≠ Some n →
             classes (doc w') n = classes (doc w) n))
  ∧ (∀ e,
       (closest (doc w) RULES.eventClass (target e) = None
        ∨ ∃ t, closest (doc w) RULES.eventClass (target e) = Some t
               ∧ contains el t = false) →
       mouseOver w el cell e = w)
  ∧ (∀ e,
       mouseOut w el cell e
       = match current w cell with
         | Some c => if leaves w c e then deactivate w cell c else w
         | None => w
         end)
  ∧ (∀ c, one_active w cell → current w cell = Some c →
          current (deactivate w cell c) cell = None
          ∧ ∀ n, RULES.eventActiveClass ∉ classes (doc (deactivate w cell c)) n)
  ∧ (∀ ps, one_active w cell →
           let w' := hover_run el cell w ps in
           one_active w' cell
           ∧ ∀ n m, RULES.eventActiveClass ∈ classes (doc w') n →
                    RULES.eventActiveClass ∈ classes (doc w') m → n = m).
Proof.
  split; [|split; [|split; [|split]]].
  - intros e t. apply mouseOver_enter.
  - intros e. apply mouseOver_ignored.
  - intros e. apply mouseOut_rule.
  - intros c. apply deactivate_rule.
  - intros ps Hone. pose proof (hover_run_one_active el cell ps w Hone) as Hone'.
    split; [done|]. intros n m Hn%Hone' Hm%Hone'. congruence.
Qed.

Lemma hover_rule_witness :
  current (mouseOver Example.bound Example.root 3 Example.over_span) 3
  = Some Example.title1.
Proof.
  assert (Hclosest : closest (doc Example.bound) RULES.eventClass (target Example.over_span)
                     = Some Example.title1) by (vm_compute; reflexivity).
  assert (Hin : contains Example.root Example.title1 = true) by (vm_compute; reflexivity).
  destruct (proj1 (hover_rule Example.bound Example.root 3)
              Example.over_span Example.title1 Hclosest Hin) as [Hcurrent _].
  exact Hcurrent.
Defined.

(** C8 as it is stated fails on the enter transition: a marker-class
    element above the target that is not within the root (here the
    document element) exists and differs from [currentActive], and the
    event changes nothing. *)
Lemma hover_ignores_marker_outside_root :
  let w := run Example.class_matches (initial Example.nested_page ∅)
               [Bind (Some Example.root) [Example.click_root] 0] in
  let w' := (deliver Example.class_matches w Example.root Example.over_span).1 in
  closest (doc w) RULES.eventClass (target Example.over_span) = Some []
  ∧ cells w = {[ 1%nat := None ]}
  ∧ map (fun x => (x.1, fn_body x.2)) (filter (fun x => x.1 = "mouseover")
                                          (listeners_on w Example.root))
    = [("mouseover", MouseOver Example.root 1)]
  ∧ w' = w
  ∧ has_class (doc w') [] RULES.eventActiveClass = false.
Proof.
  split; [|split; [|split; [|split]]]; vm_compute; reflexivity.
Qed.

(** The hover state does not outlive a binding, the active class does:
    binding again gives the root a new [currentActive], unset, and nothing
    takes the active class off the node the old one held.  After bind,
    enter the first item, bind again, enter the second item, both items
    carry the active class. *)
Lemma active_class_survives_rebind :
  let over (n : node) := {| e_type := "mouseover"; target := n; relatedTarget := None |} in
  let w := run Example.class_matches Example.start
             [Bind (Some Example.root) [Example.click_item] 0;
              Dispatch Example.root (over Example.item0);
              Bind (Some Example.root) [Example.click_item] 0;
              Dispatch Example.root (over Example.item1)] in
  has_class (doc w) Example.item0 RULES.eventActiveClass = true
  ∧ has_class (doc w) Example.item1 RULES.eventActiveClass = true
  ∧ length (filter (fun x => x.1 = "mouseover") (listeners_on w Example.root)) = 1%nat.
Proof.
  split; [|split]; vm_compute; reflexivity.
Qed.

(** * Part III: further properties of the code *)

(** ** [deepMerge] on values *)

Lemma object_depth_lookup m key v :
  m !! key = Some v → (object_depth v < object_depth (VObject m))%nat.
Proof.
  intros H. cbn [object_depth].
  rewrite (map_fold_delete_L _ _ key v m); [lia| |done].
  intros. lia.
Qed.

Lemma deepMerge_again n : ∀ sm t,
  (object_depth (VObject sm) ≤ n)%nat →
  deepMerge (deepMerge t (VObject sm)) (VObject sm) = deepMerge t (VObject sm).
Proof.
  induction n as [|n IH]; intros sm t Hn; [cbn [object_depth] in Hn; lia|].
  rewrite (deepMerge_object t sm).
  rewrite deepMerge_object. f_equal. cbn [spread]. apply map_eq. intros key.
  rewrite merge_fold_lookup.
  destruct (sm !! key) as [sv|] eqn:Hs; [|done].
  rewrite merge_fold_lookup, Hs.
  destruct (mergeable sv) eqn:Hm; [|done].
  apply mergeable_inv in Hm as [s' ->]. f_equal.
  unfold get at 1. cbn [spread]. rewrite merge_fold_lookup, Hs. cbn [mergeable default].
  rewrite mergeable_object.
  set (t' := or_else (get t key) (VObject ∅)).
  assert (Hr : ∃ r, deepMerge t' (VObject s') = VObject r) by (eexists; apply deepMerge_object).
  destruct Hr as [r Hr]. rewrite Hr. cbn [or_else truthy]. rewrite <- Hr.
  apply IH. apply object_depth_lookup in Hs. lia.
Qed.




(** X2.  Merging the same source a second time changes nothing:
    [deepMerge(deepMerge(target, source), source)] is
    [deepMerge(target, source)]. *)
Theorem deepMerge_idempotent tm sm :
  deepMerge (deepMerge (VObject tm) (VObject sm)) (VObject sm)
  = deepMerge (VObject tm) (VObject sm).
Proof. by apply (deepMerge_again (object_depth (VObject sm))). Qed.


(** ** [deepMerge] on the store *)





(** X5.  A source object that holds itself under one of its keys is never
    merged: however much room the stack has, the recursion uses it up
    (the engine's [RangeError]) and the call returns nothing. *)
Theorem deepMerge_store_cycle depth : ∀ h target b o key,
  h !! b = Some o → is_array o = false → props o !! key = Some (Ref b) →
  (Store.deepMerge depth h target (Ref b)).2 = None.
Proof.
  induction depth as [|depth IH]; intros h target b o key Hb Harr Hkey; [done|].
  cbn [Store.deepMerge].
  pose proof (alloc_fresh h (Object false (Store.spread h target))) as (Hnew & Hat & Hp).
  destruct (Store.alloc h (Object false (Store.spread h target))) as [h1 result].
  cbn [fst snd] in *.
  set (body := fun (st : store * bool) (key : string) => _).
  assert (Hstop : ∀ keys hc, foldl body (hc, false) keys = (hc, false)).
  { induction keys as [|k keys IHk]; intros hc; [done|]. cbn [foldl]. apply IHk. }
  assert (Hfold : ∀ keys hc running,
    key ∈ keys → Store.preserved h hc → (foldl body (hc, running) keys).2 = false).
  { induction keys as [|k keys IHkeys]; intros hc running Hin Hpc.
    { by apply elem_of_nil in Hin. }
    destruct running; [|by rewrite Hstop].
    cbn [foldl]. apply elem_of_cons in Hin as [<-|Hin].
    - unfold body at 2.
      assert (Hget : Store.get hc (Ref b) key = Ref b).
      { unfold Store.get. cbn [Store.spread]. rewrite (Hpc b o Hb). cbn. by rewrite Hkey. }
      rewrite Hget. cbn [Store.mergeable]. rewrite (Hpc b o Hb).
      cbn [fmap option_fmap option_map default]. rewrite Harr.
      pose proof (or_empty_preserved hc (Store.get hc target key)) as Hp2.
      destruct (Store.or_empty hc (Store.get hc target key)) as [h2 tv]. cbn [fst] in Hp2.
      pose proof (IH h2 tv b o key (Hp2 _ _ (Hpc _ _ Hb)) Harr Hkey) as Hnone.
      destruct (Store.deepMerge depth h2 tv (Ref b)) as [h3 [merged|]]; [done|].
      cbv beta iota. unfold id. cbn [negb]. by rewrite Hstop.
    - destruct (body (hc, true) k) as [hc' running'] eqn:Hstep.
      apply IHkeys; [done|].
      unfold body in Hstep.
      destruct (Store.mergeable hc (Store.get hc (Ref b) k)).
      + pose proof (or_empty_preserved hc (Store.get hc target k)) as Hp2.
        destruct (Store.or_empty hc (Store.get hc target k)) as [h2 tv]. cbn [fst] in Hp2.
        destruct (deepMerge_store_preserved depth h2 tv (Store.get hc (Ref b) k)) as [Hp3 _].
        destruct (Store.deepMerge depth h2 tv (Store.get hc (Ref b) k)) as [h3 [merged|]];
          cbn [fst] in Hp3; injection Hstep as <- <-.
        * apply preserved_write; [done|].
          eapply preserved_trans; [exact Hpc|]. by eapply preserved_trans.
        * eapply preserved_trans; [exact Hpc|]. by eapply preserved_trans.
      + injection Hstep as <- <-. by apply preserved_write. }
  assert (Hin : key ∈ map fst (map_to_list (Store.spread h1 (Ref b)))).
  { cbn [Store.spread]. rewrite (Hp b o Hb). cbn.
    apply list_elem_of_fmap. exists (key, Ref b). split; [done|]. by apply elem_of_map_to_list. }
  pose proof (Hfold _ h1 true Hin Hp) as Hres.
  destruct (foldl body (h1, true) _) as [hf running]. cbn [snd] in *. by subst.
Qed.

Lemma deepMerge_store_cycle_witness :
  (Store.deepMerge 64 cyclic_store (Ref 0) (Ref 1)).2 = None.
Proof.
  apply (deepMerge_store_cycle 64 cyclic_store (Ref 0) 1
           (Object false {[ "self" := Ref 1 ]}) "self"); reflexivity.
Defined.

(** ** [isEmpty] *)



(** ** [injectCss] *)

Lemma injectCss_ids url p :
  NoDup (map link_id (links p)) → NoDup (map link_id (links (injectCss url p))).
Proof.
  intros Hnd. unfold injectCss. destruct url; try done.
  destruct (String.eqb s ""); [done|]. unfold has_id. case_bool_decide as Hid; [done|].
  cbn [links]. rewrite map_app. apply NoDup_app. split; [done|]. split.
  - intros id Hin [->|[]%elem_of_nil]%elem_of_cons. apply Hid. by right.
  - apply NoDup_singleton.
Qed.

Lemma injectCss_added p id url :
  has_id (Styles (other_ids p) (links p ++ [Link id "stylesheet" url])) id = true.
Proof.
  apply bool_decide_eq_true. right. cbn [links]. rewrite map_app. set_solver.
Qed.

Lemma injectCss_twice url p : injectCss url (injectCss url p) = injectCss url p.
Proof.
  destruct url; try done. unfold injectCss. cbv zeta.
  destruct (String.eqb s ""); [done|].
  destruct (has_id p (css_id s)) eqn:Hid; [by rewrite Hid|].
  by rewrite injectCss_added.
Qed.

Lemma injectCss_all_ids urls : ∀ p,
  NoDup (map link_id (links p)) →
  NoDup (map link_id (links (foldl (fun p u => injectCss u p) p urls))).
Proof.
  induction urls as [|u urls IH]; intros p Hp; [done|].
  cbn [foldl]. apply IH. by apply injectCss_ids.
Qed.

(** X7.  However many stylesheets are injected, and however often the
    same one, no two links in the head share an id: injecting a URL a
    second time changes nothing.  A URL that is empty or not a string is
    ignored. *)
Theorem injectCss_once ids urls url :
  let p := foldl (fun p u => injectCss u p) (Styles ids []) urls in
  NoDup (map link_id (links p))
  ∧ injectCss url (injectCss url p) = injectCss url p
  ∧ (truthy url = false ∨ typeof_string url = false → injectCss url p = p).
Proof.
  intros p. split; [|split].
  - apply injectCss_all_ids. apply NoDup_nil_2.
  - apply injectCss_twice.
  - intros H. destruct url; try done. cbn in H. cbn.
    destruct (String.eqb s ""); [done|]. cbn in H. by destruct H.
Qed.

Lemma injectCss_once_witness :
  let p := foldl (fun p u => injectCss u p) (Styles ∅ [])
                 [VString "/ui/list/listView.css"; VString "/ui/list/listView.css"] in
  map link_id (links p) = ["css-listViewcss"] ∧ injectCss (VNumber (Num 1)) p = p.
Proof.
  intros p. split; [reflexivity|].
  apply (injectCss_once ∅ [VString "/ui/list/listView.css"; VString "/ui/list/listView.css"]
           (VNumber (Num 1))).
  right. reflexivity.
Defined.

Lemma append_nil s : "" +:+ s = s.
Proof. reflexivity. Qed.

Lemma append_cons a s t : String a s +:+ t = String a (s +:+ t).
Proof. reflexivity. Qed.

Lemma split_on_no_sep sep file :
  Forall (fun a => a ≠ sep) (String.list_ascii_of_string file) →
  split_on sep file = [file].
Proof.
  induction file as [|a file IH]; [done|].
  cbn [String.list_ascii_of_string split_on]. intros [Ha Hf]%Forall_cons.
  rewrite (proj2 (Ascii.eqb_neq _ _) Ha). by rewrite (IH Hf).
Qed.

Lemma split_on_nonempty sep s : split_on sep s ≠ [].
Proof.
  destruct s as [|a r]; [done|]. cbn. destruct (Ascii.eqb a sep); [done|].
  by destruct (split_on sep r).
Qed.

Lemma last_cons_nonempty {A} (x : A) l : l ≠ [] → last (x :: l) = last l.
Proof. by destruct l. Qed.

Lemma split_on_app_length sep dir rest :
  (2 ≤ length (split_on sep (dir +:+ String sep rest)))%nat.
Proof.
  induction dir as [|a dir IH]; rewrite ?append_nil, ?append_cons; cbn [split_on].
  - rewrite Ascii.eqb_refl. pose proof (split_on_nonempty sep rest).
    destruct (split_on sep rest); [done|cbn; lia].
  - destruct (Ascii.eqb a sep); [cbn; lia|].
    destruct (split_on sep (dir +:+ String sep rest)) as [|? [|? ?]]; cbn in *; lia.
Qed.

(** What follows the last separator is the last segment. *)
Lemma last_split_on_app sep dir file :
  Forall (fun a => a ≠ sep) (String.list_ascii_of_string file) →
  last (split_on sep (dir +:+ String sep file)) = Some file.
Proof.
  intros Hf. induction dir as [|a dir IH]; rewrite ?append_nil, ?append_cons; cbn [split_on].
  - by rewrite Ascii.eqb_refl, (split_on_no_sep _ _ Hf).
  - destruct (Ascii.eqb a sep).
    + rewrite last_cons_nonempty by apply split_on_nonempty. exact IH.
    + pose proof (split_on_app_length sep dir file) as Hlen.
      destruct (split_on sep (dir +:+ String sep file)) as [|seg [|seg' rest]];
        [cbn in Hlen; lia..|].
      exact IH.
Qed.

(** X8.  The id of a stylesheet depends on its file name only, not on
    its directory: of two stylesheets with the same file name in
    different directories, the one injected second is never added. *)
Theorem injectCss_same_file_name p dir dir' file :
  Forall (fun a => a ≠ slash) (String.list_ascii_of_string file) →
  css_id (dir +:+ String slash file) = "css-" +:+ strip_non_word file
  ∧ injectCss (VString (dir' +:+ String slash file))
      (injectCss (VString (dir +:+ String slash file)) p)
    = injectCss (VString (dir +:+ String slash file)) p.
Proof.
  intros Hf.
  assert (Hid : ∀ d, css_id (d +:+ String slash file) = "css-" +:+ strip_non_word file).
  { intros d. unfold css_id. by rewrite (last_split_on_app _ _ _ Hf). }
  assert (Hne : ∀ d, String.eqb (d +:+ String slash file) "" = false).
  { intros d. by destruct d. }
  split; [apply Hid|].
  unfold injectCss. cbv zeta. rewrite !Hne, !Hid.
  destruct (has_id p _) eqn:Hp; [by rewrite Hp|].
  by rewrite injectCss_added.
Qed.

Lemma injectCss_same_file_name_witness :
  links (injectCss (VString "/ui/list/item.css")
           (injectCss (VString "/ui/panel/item.css") (Styles ∅ [])))
  = [Link "css-itemcss" "stylesheet" "/ui/panel/item.css"].
Proof.
  etrans; [|reflexivity].
  exact (f_equal links
           (proj2 (injectCss_same_file_name (Styles ∅ []) "/ui/panel" "/ui/list" "item.css"
                     ltac:(by_computation)))).
Defined.

(** ** The index of an item, written and read back *)








(** ** View data *)


(** ** The event engine: marks, frame, failure *)

Section marks.
Context (matches : document → node → string → bool).


Lemma add_all_unmarked targets : ∀ d,
  unmarked (foldl (fun d t => classList_add d t RULES.eventClass) d targets) = unmarked d.
Proof.
  induction targets as [|t targets IH]; intros d; [done|].
  cbn [foldl]. by rewrite IH, unmarked_add.
Qed.


Lemma mark_unmarked el d sel : unmarked (mark matches el d sel) = unmarked d.
Proof. apply add_all_unmarked. Qed.


Lemma sort_fold_doc el eventList : ∀ w selectorMap elEvents,
  doc (foldl (sort_event matches el) (w, selectorMap, elEvents) eventList).1.1
  = foldl (mark matches el) (doc w) (marked_in eventList).
Proof.
  induction eventList as [|ev eventList IH]; intros w selectorMap elEvents; [done|].
  cbn [foldl]. unfold sort_event at 2. unfold marked_in.
  destruct (no_selector ev) eqn:Hev.
  - rewrite filter_cons_False by (by rewrite Hev). apply IH.
  - rewrite filter_cons_True by done. cbn [map foldl]. rewrite IH. done.
Qed.

Lemma register_doc el viewData w recorded group :
  doc (register matches el viewData (w, recorded) group).1
  = foldl (mark matches el) (doc w) (marked_in group.2).
Proof.
  destruct group as [ty eventList]. unfold register.
  pose proof (sort_fold_doc el eventList w [] []) as Hd.
  destruct (foldl (sort_event matches el) (w, [], []) eventList) as [[w1 selectorMap] elEvents].
  cbn [fst snd] in *. rewrite <- Hd.
  by destruct (addEventListener_rest (set_next w1 (S (next_id w1))) el ty
                 (Listener (next_id w1) (Delegate el selectorMap elEvents viewData)))
    as (-> & _).
Qed.

Lemma register_fold_doc el viewData grouped : ∀ w recorded,
  doc (foldl (register matches el viewData) (w, recorded) grouped).1
  = foldl (mark matches el) (doc w) (marked_selectors grouped).
Proof.
  induction grouped as [|group grouped IH]; intros w recorded; [done|].
  cbn [foldl]. unfold marked_selectors. cbn [flat_map]. rewrite foldl_app.
  rewrite <- (register_doc el viewData w recorded group).
  destruct (register matches el viewData (w, recorded) group) as [w1 recorded1].
  apply IH.
Qed.

Lemma bindEvents_doc w el events viewData grouped :
  events ≠ [] → group_by_type events = Some grouped →
  doc (bindEvents matches w (Some el) events viewData).1
  = foldl (mark matches el) (doc (unbindEvents matches w (Some el))) (marked_selectors grouped).
Proof.
  intros Hne Hg. unfold bindEvents. destruct events as [|ev events]; [done|].
  rewrite Hg.
  pose proof (register_fold_doc el viewData grouped (unbindEvents matches w (Some el)) []) as Hd.
  destruct (foldl (register matches el viewData) (unbindEvents matches w (Some el), []) grouped)
    as [w1 recorded].
  cbn [fst snd] in *. rewrite <- Hd. cbn [enableNearestHover].
  set (w2 := set_next _ _).
  destruct (addEventListener_rest w2 el "mouseover"
              (Listener (S (next_id (set_store w1 (<[el:=recorded]> (EVENT_STORE w1)))))
                 (MouseOver el (next_id (set_store w1 (<[el:=recorded]> (EVENT_STORE w1)))))))
    as (Hd1 & _).
  set (w3 := addEventListener w2 el "mouseover" _) in *.
  destruct (addEventListener_rest w3 el "mouseout"
              (Listener (S (S (next_id (set_store w1 (<[el:=recorded]> (EVENT_STORE w1))))))
                 (MouseOut el (next_id (set_store w1 (<[el:=recorded]> (EVENT_STORE w1)))))))
    as (Hd2 & _).
  cbn [doc set_store]. rewrite Hd2, Hd1. done.
Qed.




End marks.

Lemma unbindEvents_unmarked matches w el :
  unmarked (doc (unbindEvents matches w el)) = unmarked (doc w).
Proof.
  destruct el as [el|]; [|done]. cbn [unbindEvents].
  destruct (EVENT_STORE w !! el) as [record|]; [|done].
  rewrite unbind_fold_doc. apply unmark_fold_unmarked.
Qed.


Lemma bindEvents_unmarked matches w el events viewData :
  unmarked (doc (bindEvents matches w el events viewData).1) = unmarked (doc w).
Proof.
  destruct el as [el|]; [|done]. destruct (decide (events = [])) as [->|Hne]; [done|].
  destruct (group_by_type events) as [grouped|] eqn:Hg.
  - rewrite (bindEvents_doc matches w el events viewData grouped Hne Hg).
    assert (Hall : ∀ sels d, unmarked (foldl (mark matches el) d sels) = unmarked d).
    { induction sels as [|sel sels IH]; intros d; [done|].
      cbn [foldl]. by rewrite IH, mark_unmarked. }
    rewrite Hall. apply unbindEvents_unmarked.
  - unfold bindEvents. destruct events as [|ev events]; [done|]. rewrite Hg.
    cbn [fst]. apply unbindEvents_unmarked.
Qed.













(** X14.  What a bind or an unbind of one root leaves alone: the
    listeners and the record of every other element, the view-data
    arrays, and everything in the document but marker classes; in
    particular neither takes the active class off an element that carries
    it. *)
Theorem binding_frame matches d arrs history root events viewData :
  let w := run matches (initial d arrs) history in
  let bound := (bindEvents matches w (Some root) events viewData).1 in
  let unbound := unbindEvents matches w (Some root) in
  (∀ other, other ≠ root →
     listeners_on bound other = listeners_on w other
     ∧ EVENT_STORE bound !! other = EVENT_STORE w !! other
     ∧ listeners_on unbound other = listeners_on w other
     ∧ EVENT_STORE unbound !! other = EVENT_STORE w !! other)
  ∧ arrays bound = arrays w ∧ arrays unbound = arrays w
  ∧ unmarked (doc bound) = unmarked (doc w)
  ∧ unmarked (doc unbound) = unmarked (doc w)
  ∧ (∀ n, (RULES.eventActiveClass ∈ classes (doc bound) n
           ↔ RULES.eventActiveClass ∈ classes (doc w) n)
          ∧ (RULES.eventActiveClass ∈ classes (doc unbound) n
             ↔ RULES.eventActiveClass ∈ classes (doc w) n)).
Proof.
  intros w bound unbound.
  pose proof (history_consistent matches d arrs history root) as Hw. fold w in Hw.
  destruct (unbindEvents_effect matches w root) as (Hs0 & _ & Ha0 & _ & Ho0 & _).
  fold unbound in Hs0, Ha0, Ho0.
  assert (Hbound : (∀ other, other ≠ root →
                      listeners_on bound other = listeners_on w other
                      ∧ EVENT_STORE bound !! other = EVENT_STORE w !! other)
                   ∧ arrays bound = arrays w).
  { destruct (decide (events = [])) as [->|Hne]; [done|].
    destruct (accepted events) eqn:Hacc.
    - destruct (bindEvents_accepted matches w root events viewData _ Hw Hacc)
        as (_ & _ & _ & Ha & Ho). done.
    - destruct (bindEvents_rejected matches w root events viewData Hne Hacc) as [message Hr].
      unfold bound. rewrite Hr. cbn [fst]. fold unbound. split; [|done].
      intros other Hother. split; [by apply Ho0|by rewrite Hs0]. }
  destruct Hbound as [Ho Ha].
  pose proof (bindEvents_unmarked matches w (Some root) events viewData) as Hub.
  pose proof (unbindEvents_unmarked matches w (Some root)) as Huu.
  fold bound in Hub. fold unbound in Huu.
  split; [|split; [done|split; [done|split; [done|split; [done|]]]]].
  - intros other Hother. destruct (Ho other Hother) as [Hl Hs].
    split; [done|]. split; [done|]. split; [by apply Ho0|by rewrite Hs0].
  - intros n.
    pose proof (classes_unmarked (doc bound) n) as H1.
    pose proof (classes_unmarked (doc unbound) n) as H2.
    pose proof (classes_unmarked (doc w) n) as H3.
    rewrite Hub in H1. rewrite Huu in H2. rewrite H3 in H1, H2.
    assert (Hne : RULES.eventActiveClass ≠ RULES.eventClass) by done.
    set (a := RULES.eventActiveClass) in *. set (m := RULES.eventClass) in *.
    clearbody a m. set_solver.
Qed.




(** ** Rendering: built trees in the document *)

Lemma mount_keys : ∀ t path n, is_Some (mount path t !! n) → path `suffix_of` n.
Proof.
  fix IH 1. intros [tag cls di ui attrs text cs] path n. cbn [mount children].
  destruct (decide (n = path)) as [->|Hne]; [done|].
  rewrite lookup_insert_ne by done.
  generalize 0%nat. induction cs as [|c cs IHcs]; intros i; cbn [mount_all].
  - rewrite lookup_empty. by intros [? ?].
  - rewrite lookup_union_is_Some. intros [Hc|Hcs].
    + apply IH in Hc. by eapply suffix_cons_l.
    + by apply (IHcs (S i)).
Qed.

Lemma suffix_child_eq (i j : nat) (path n : node) :
  (i :: path) `suffix_of` n → (j :: path) `suffix_of` n → i = j.
Proof.
  intros [k1 H1] [k2 H2]. rewrite H1 in H2.
  assert (length k1 = length k2) as Hlen.
  { apply (f_equal length) in H2. rewrite !length_app in H2. cbn in H2. lia. }
  apply app_inj_1 in H2 as [_ H2]; [|done]. by injection H2.
Qed.

Lemma mount_all_lookup path i n : ∀ cs j,
  (i :: path) `suffix_of` n →
  mount_all mount path j cs !! n
  = if decide (j ≤ i)%nat then cs !! (i - j)%nat ≫= fun c => mount (i :: path) c !! n
    else None.
Proof.
  induction cs as [|c cs IH]; intros j Hn; cbn [mount_all].
  - rewrite lookup_empty. by destruct (decide (j ≤ i)%nat).
  - destruct (decide (j = i)) as [->|Hji].
    + rewrite decide_True, Nat.sub_diag by lia. cbn.
      destruct (mount (i :: path) c !! n) as [e|] eqn:Hc.
      * by apply lookup_union_Some_l.
      * rewrite lookup_union_r by done. rewrite IH by done.
        by rewrite decide_False by lia.
    + assert (mount (j :: path) c !! n = None) as Hc.
      { apply eq_None_not_Some. intros Hs%mount_keys.
        by destruct (Hji (suffix_child_eq j i path n Hs Hn)). }
      rewrite lookup_union_r by done. rewrite IH by done.
      destruct (decide (j ≤ i)%nat).
      * rewrite decide_True by lia.
        replace (i - j)%nat with (S (i - S j)) by lia. done.
      * by rewrite decide_False by lia.
Qed.

(** The element at a relative position of a mounted tree. *)
Lemma mount_lookup : ∀ rel t path,
  mount path t !! (rev rel ++ path) = element_of <$> descend t rel.
Proof.
  intros rel. induction rel as [|i rel IH]; intros t path.
  - destruct t. cbn [mount rev app descend]. by rewrite lookup_insert_eq.
  - assert (Hn : rev (i :: rel) ++ path = rev rel ++ i :: path).
    { cbn [rev]. by rewrite <- app_assoc. }
    rewrite Hn. destruct t as [tag cls di ui attrs text cs]. cbn [mount children descend].
    rewrite lookup_insert_ne.
    2:{ intros Heq. apply (f_equal length) in Heq. rewrite length_app in Heq. cbn in Heq. lia. }
    rewrite (mount_all_lookup path i) by (by eexists).
    rewrite decide_True, Nat.sub_0_r by lia.
    destruct (cs !! i) as [c|]; [|done]. cbn. apply IH.
Qed.

Lemma foldr_max_le (l : list nat) x : x ∈ l → (x ≤ foldr max 0 l)%nat.
Proof.
  induction l as [|y l IH]; [by intros []%elem_of_nil|].
  intros [->|Hx]%elem_of_cons; cbn; [lia|]. specialize (IH Hx). lia.
Qed.

Lemma child_toward_below p i pre : child_toward p (pre ++ i :: p) = Some i.
Proof.
  unfold child_toward. rewrite length_app. cbn [length].
  replace (length pre + S (length p) - S (length p))%nat with (length pre + 0)%nat by lia.
  rewrite drop_app_add by done. cbn. by rewrite decide_True.
Qed.

(** Nothing of the document lies at or below the place of a new child. *)
Lemma next_child_fresh d p n :
  (next_child d p :: p) `suffix_of` n → d !! n = None.
Proof.
  intros [pre ->]. apply eq_None_not_Some. intros [e He].
  assert (S (next_child d p) ≤ next_child d p)%nat; [|lia].
  unfold next_child at 2. apply foldr_max_le. apply list_elem_of_fmap.
  exists (next_child d p). split; [done|]. apply list_elem_of_omap.
  exists (pre ++ next_child d p :: p). split; [|apply child_toward_below].
  apply list_elem_of_fmap. exists (pre ++ next_child d p :: p, e). split; [done|].
  by apply elem_of_map_to_list.
Qed.

Lemma appendChild_lookup d p t rel :
  appendChild d p t !! (rev rel ++ next_child d p :: p) = element_of <$> descend t rel.
Proof.
  unfold appendChild.
  pose proof (mount_lookup rel t (next_child d p :: p)) as Hm.
  destruct (descend t rel) as [c|]; cbn in *.
  - by apply lookup_union_Some_l.
  - rewrite lookup_union_r by done. apply (next_child_fresh d p). by eexists.
Qed.

Lemma appendChild_outside d p t n :
  ¬ (next_child d p :: p) `suffix_of` n → appendChild d p t !! n = d !! n.
Proof.
  intros Hn. unfold appendChild. apply lookup_union_r.
  apply eq_None_not_Some. by intros Hs%mount_keys.
Qed.

Lemma no_class_descend c : ∀ rel t x,
  no_class c t = true → descend t rel = Some x → c ∉ class_tokens (className x).
Proof.
  intros rel. induction rel as [|i rel IH]; intros t x Ht Hx.
  - cbn in Hx. injection Hx as <-. destruct t. cbn [no_class className] in *.
    apply andb_true_iff in Ht as [Ht _]. by apply negb_true_iff, bool_decide_eq_false in Ht.
  - cbn [descend] in Hx. destruct (children t !! i) as [ch|] eqn:Hch; [|done]. cbn in Hx.
    apply (IH ch); [|done]. destruct t. cbn [no_class children] in *.
    apply andb_true_iff in Ht as [_ Ht]. rewrite forallb_forall in Ht.
    apply Ht, list_elem_of_In. by eapply list_elem_of_lookup_2.
Qed.

Lemma for_each_lookup {A B} (f : nat → A → outcome B) : ∀ xs i ys,
  for_each f i xs = Returned ys →
  ∀ k x, xs !! k = Some x → ∃ y, ys !! k = Some y ∧ f (i + k)%nat x = Returned y.
Proof.
  induction xs as [|x0 xs IH]; intros i ys Hys k x Hk; [done|].
  cbn [for_each] in Hys. destruct (f i x0) as [y0|] eqn:Hy0; [|done]. cbn in Hys.
  destruct (for_each f (S i) xs) as [ys'|] eqn:Hys'; [|done]. cbn in Hys.
  injection Hys as <-. destruct k as [|k].
  - injection Hk as <-. exists y0. by rewrite Nat.add_0_r.
  - destruct (IH (S i) ys' Hys' k x Hk) as (y & Hy & Hf). exists y. split; [done|].
    by replace (i + S k)%nat with (S i + k)%nat by lia.
Qed.

Lemma append_empty_r s : s +:+ "" = s.
Proof. induction s as [|a s IH]; [done|]. by rewrite append_cons, IH. Qed.

Lemma append_assoc s t u : (s +:+ t) +:+ u = s +:+ (t +:+ u).
Proof. induction s as [|a s IH]; [done|]. by rewrite !append_cons, IH. Qed.

(** A word followed by white space is a token. *)
Lemma class_tokens_word sp s2 : ∀ s1 w,
  is_html_space sp = true →
  Forall (fun a => is_html_space a = false) (String.list_ascii_of_string s1) →
  class_tokens_from w (s1 +:+ String sp s2)
  = (if String.eqb (w +:+ s1) "" then [] else [w +:+ s1]) ++ class_tokens_from "" s2.
Proof.
  induction s1 as [|a s1 IH]; intros w Hsp Hs1.
  - rewrite append_nil, append_empty_r. cbn [class_tokens_from]. by rewrite Hsp.
  - apply Forall_cons in Hs1 as [Ha Hs1]. rewrite append_cons. cbn [class_tokens_from].
    rewrite Ha, (IH _ Hsp Hs1), append_assoc. done.
Qed.

Lemma class_tokens_last : ∀ s1 w,
  Forall (fun a => is_html_space a = false) (String.list_ascii_of_string s1) →
  class_tokens_from w s1 = if String.eqb (w +:+ s1) "" then [] else [w +:+ s1].
Proof.
  induction s1 as [|a s1 IH]; intros w Hs1.
  - by rewrite append_empty_r.
  - apply Forall_cons in Hs1 as [Ha Hs1]. cbn [class_tokens_from].
    rewrite Ha, (IH _ Hs1), append_assoc. done.
Qed.

Section render_facts.
Context (toLowerCase : string → string).

Lemma status_className lower :
  makeClassName (Many [TString "panel-right"]) (Many [TString "status-badge"; TString lower])
  = if String.eqb lower "" then "dh-panel-right status-badge"
    else "dh-panel-right" +:+ String space ("status-badge" +:+ String space lower).
Proof.
  unfold makeClassName. cbn [to_array].
  rewrite !(filter_cons_True _ (TString "panel-right")) by done.
  rewrite !(filter_cons_True _ (TString "status-badge")) by done.
  rewrite !filter_nil.
  destruct (String.eqb lower "") eqn:Hlow.
  - rewrite filter_cons_False by (cbn [token_truthy]; by rewrite Hlow). reflexivity.
  - rewrite filter_cons_True by (cbn [token_truthy]; by rewrite Hlow). reflexivity.
Qed.

(** The class list of a status badge: the two fixed classes and the
    tokens of the status in lower case. *)
Lemma createStatus_classes status el :
  PanelRender_body.createStatus toLowerCase status = Returned el →
  ∃ s, or_else status (VString "") = VString s
       ∧ class_tokens (className el)
         = ["dh-panel-right"; "status-badge"] ++ class_tokens (toLowerCase s)
       ∧ children el = [].
Proof.
  unfold PanelRender_body.createStatus. destruct (or_else status (VString "")) as [| | | |s| | |];
    try done.
  intros [= <-]. exists s. split; [done|]. split; [|done]. cbn [className].
  rewrite status_className. destruct (String.eqb (toLowerCase s) "") eqn:Hlow.
  - apply String.eqb_eq in Hlow. rewrite Hlow. reflexivity.
  - unfold class_tokens.
    rewrite (class_tokens_word space _ "dh-panel-right" "") by (done || by repeat constructor).
    rewrite (class_tokens_word space _ "status-badge" "") by (done || by repeat constructor).
    reflexivity.
Qed.

Lemma no_class_node c tag cls di ui attrs text cs :
  no_class c (Dom tag cls di ui attrs text cs)
  = negb (bool_decide (c ∈ class_tokens cls)) && forallb (no_class c) cs.
Proof. reflexivity. Qed.

Lemma renderItem_shape index item li :
  PanelRender_body.renderItem toLowerCase index item = Returned li →
  class_tokens (className li) = ["dh-panel-item"; RULES.dataBindClass]
  ∧ ui_index li = Some (Num (Z.of_nat index))
  ∧ data_index li = Some (pretty index)
  ∧ ∀ c, c ∉ PanelRender_body.inner_classes →
         PanelRender_body.status_free toLowerCase c item →
         forallb (no_class c) (children li) = true.
Proof.
  unfold PanelRender_body.renderItem. intros Hli.
  destruct (property item "icon") as [icon|] eqn:Hicon; [|done]. cbn [outcome_bind] in Hli.
  destruct (if truthy (get item "rightType")
            then PanelRender_body.createRightComponent toLowerCase item
            else Returned None) as [right|] eqn:Hr; [|done].
  cbn [outcome_bind] in Hli. injection Hli as <-.
  cbn [className ui_index data_index children].
  split; [reflexivity|]. split; [done|]. split; [done|]. intros c Hc Hok.
  assert (Hfixed : ∀ l, l ⊆ PanelRender_body.inner_classes → bool_decide (c ∈ l) = false).
  { intros l Hl. apply bool_decide_eq_false. intros Hin. by apply Hc, Hl. }
  assert (Hnone : bool_decide (c ∈ @nil string) = false).
  { apply bool_decide_eq_false. by intros ?%elem_of_nil. }
  assert (Hright : forallb (no_class c) (option_list right) = true).
  { destruct (truthy (get item "rightType")) eqn:Htr; [|by injection Hr as <-].
    unfold PanelRender_body.createRightComponent in Hr.
    destruct (is_string (get item "rightType") "status") eqn:Hst.
    - destruct (PanelRender_body.createStatus toLowerCase (get item "status")) as [el|] eqn:Hel;
        [|done].
      injection Hr as <-.
      destruct (createStatus_classes _ _ Hel) as (s & Hs & Hcls & Hch).
      change (option_list (Some el)) with [el]. cbn [forallb]. rewrite andb_true_r.
      destruct el as [tag cls di ui attrs text cs]. cbn [className children] in *.
      subst cs. rewrite no_class_node. cbn [forallb]. rewrite andb_true_r.
      apply negb_true_iff, bool_decide_eq_false. rewrite Hcls.
      intros [Hin|Hin]%elem_of_app.
      + apply Hc. unfold PanelRender_body.inner_classes. set_solver.
      + by apply (Hok Htr Hst s).
    - destruct (is_string (get item "rightType") "ip"); injection Hr as <-; [|done].
      change (option_list (Some ?x)) with [x]. unfold PanelRender_body.createIp.
      cbn [forallb]. rewrite no_class_node. cbn [forallb].
      change (class_tokens _) with ["dh-panel-right"; "ip"].
      rewrite Hfixed; [done|]. unfold PanelRender_body.inner_classes. set_solver. }
  rewrite !forallb_app, Hright, andb_true_r. apply andb_true_iff. split.
  - destruct (truthy icon); [|done]. unfold PanelRender_body.createIcon.
    cbn [forallb]. rewrite !no_class_node. cbn [forallb]. rewrite !no_class_node.
    cbn [forallb].
    change (class_tokens (makeClassName _ _)) with ["dh-panel-item-icon"].
    change (class_tokens "") with (@nil string).
    rewrite Hnone, Hfixed; [done|]. unfold PanelRender_body.inner_classes. set_solver.
  - destruct (truthy (get item "title")); [|done]. unfold PanelRender_body.createContent.
    cbn [forallb]. rewrite !no_class_node. cbn [forallb]. rewrite !no_class_node.
    change (class_tokens (makeClassName (Many [TString "panel-item-content"]) _))
      with ["dh-panel-item-content"].
    change (class_tokens (makeClassName (Many [TString "panel-item-title"]) _))
      with ["dh-panel-item-title"].
    rewrite !Hfixed by (unfold PanelRender_body.inner_classes; set_solver).
    destruct (truthy (get item "subText")); [|done].
    cbn [forallb]. rewrite !no_class_node. cbn [forallb].
    change (class_tokens (makeClassName (Many [TString "panel-item-subText"]) _))
      with ["dh-panel-item-subText"].
    rewrite !Hfixed by (unfold PanelRender_body.inner_classes; set_solver). done.
Qed.

End render_facts.

Section render_theorems.
Context (toLowerCase : string → string).

Lemma closest_ext d d' c : ∀ n,
  (∀ a, a `suffix_of` n → has_class d' a c = has_class d a c) →
  closest d' c n = closest d c n.
Proof.
  induction n as [|i p IH]; intros H; cbn [closest].
  - by rewrite (H []).
  - rewrite (H (i :: p)) by done. rewrite IH; [done|].
    intros a Ha. apply H. by apply suffix_cons_r.
Qed.

Lemma has_class_element d n t c :
  d !! n = Some (element_of t) →
  has_class d n c = bool_decide (c ∈ class_tokens (className t)).
Proof.
  intros Hn. unfold has_class, classes. rewrite Hn. cbn.
  apply bool_decide_ext. apply elem_of_list_to_set.
Qed.

Lemma has_class_absent d n c : d !! n = None → has_class d n c = false.
Proof.
  intros Hn. unfold has_class, classes. rewrite Hn. cbn.
  apply bool_decide_eq_false. set_solver.
Qed.

Lemma resolveItemData_found d n item e viewData :
  closest d RULES.dataBindClass n = Some item → d !! item = Some e →
  resolveItemData d n viewData
  = match (match _uiIndex e with
           | Some i => i
           | None => parseInt (default "" (dataset_index e))
           end) with
    | NaN => (NaN, VNull)
    | Num z => (Num z, at_index viewData z)
    end.
Proof.
  intros Hc He. unfold resolveItemData. rewrite Hc, He. cbn.
  by destruct (match _uiIndex e with Some i => i | None => _ end).
Qed.

(** From every node at or below a rendered item, the item's index and
    record. *)
Lemma renderBody_item_data d panel viewData emptyText d' :
  PanelRender_body.renderBody toLowerCase d panel viewData emptyText = Returned d' →
  ∀ k item, viewData !! k = Some item → PanelRender_body.status_free toLowerCase RULES.dataBindClass item →
    ∀ below,
      resolveItemData d' (below ++ k :: 0%nat :: next_child d panel :: panel) viewData
      = (Num (Z.of_nat k), item).
Proof.
  unfold PanelRender_body.renderBody, PanelRender_body.body. intros Hd' k item Hk Hok below.
  destruct viewData as [|item0 viewData0] eqn:Hview; [done|]. rewrite <- Hview in *.
  assert (Hitems : ∃ items, for_each (PanelRender_body.renderItem toLowerCase) 0 viewData
                            = Returned items).
  { rewrite Hview in *.
    destruct (for_each (PanelRender_body.renderItem toLowerCase) 0 (item0 :: viewData0)); [|done].
    by eexists. }
  destruct Hitems as [items Hitems].
  rewrite Hitems in Hd'. cbn [outcome_bind] in Hd'. injection Hd' as <-.
  set (b := Dom "div" _ None None [] None _).
  destruct (for_each_lookup _ _ _ _ Hitems k item Hk) as (li & Hli & Hrender).
  cbn [Nat.add] in Hrender.
  destruct (renderItem_shape toLowerCase k item li Hrender) as (Hcls & Hui & _ & Hfree).
  specialize (Hfree RULES.dataBindClass ltac:(by_computation) Hok).
  assert (Hnode : ∀ rel, appendChild d panel b !! (rev rel ++ k :: 0%nat :: next_child d panel :: panel)
                         = element_of <$> descend li rel).
  { intros rel.
    replace (rev rel ++ k :: 0%nat :: next_child d panel :: panel) with (rev (0%nat :: k :: rel) ++ (next_child d panel :: panel))
      by (cbn [rev]; by rewrite <- !app_assoc).
    rewrite appendChild_lookup. cbn [descend b children lookup list_lookup]. cbn.
    by rewrite Hli. }
  pose proof (Hnode []) as Hroot. cbn [rev app descend fmap option_fmap option_map] in Hroot.
  rewrite (resolveItemData_found _ _ (k :: 0%nat :: next_child d panel :: panel)
             (element_of li) viewData); [| |exact Hroot].
  - cbn [element_of _uiIndex]. rewrite Hui.
    f_equal. unfold at_index. destruct (Z.ltb_spec (Z.of_nat k) 0); [lia|].
    by rewrite Nat2Z.id, Hk.
  - apply closest_item.
    + rewrite (has_class_element _ _ li) by exact Hroot. rewrite Hcls. reflexivity.
    + intros b' Hne _. specialize (Hnode (rev b')). rewrite rev_involutive in Hnode.
      destruct (descend li (rev b')) as [x|] eqn:Hx.
      * rewrite (has_class_element _ _ x) by exact Hnode. apply bool_decide_eq_false.
        destruct (rev b') as [|i rel] eqn:Hrev.
        { rewrite <- (rev_involutive b'), Hrev in Hne. done. }
        cbn [descend] in Hx. destruct (children li !! i) as [ch|] eqn:Hch; [|done].
        cbn in Hx. apply (no_class_descend _ rel ch); [|done].
        rewrite forallb_forall in Hfree. apply Hfree, list_elem_of_In.
        by eapply list_elem_of_lookup_2.
      * apply has_class_absent. exact Hnode.
Qed.

(** X16.  After [renderBody], every node at or below the [li] of the
    item at index [k] (at whatever depth, existing or not) resolves to
    index [k] and the record at [k], provided the item's status, in lower
    case, does not spell the data-bind class. *)
Theorem renderBody_resolves d panel viewData emptyText d' :
  PanelRender_body.renderBody toLowerCase d panel viewData emptyText = Returned d' →
  ∀ k item, viewData !! k = Some item →
    PanelRender_body.status_free toLowerCase RULES.dataBindClass item →
    ∀ below,
      resolveItemData d' (below ++ k :: 0%nat :: next_child d panel :: panel) viewData
      = (Num (Z.of_nat k), item).
Proof. apply renderBody_item_data. Qed.



(** X17.  With no data, [renderBody] appends the placeholder: it
    carries the item class and the class [empty], not the data-bind
    class, so a handler bound on the item class that is reached through
    it gets index [NaN] and data [null] (when the panel itself is not
    inside a data-bind element). *)
Theorem renderBody_empty d panel emptyText :
  let placeholder := 0%nat :: 0%nat :: next_child d panel :: panel in
  ∃ d', PanelRender_body.renderBody toLowerCase d panel [] emptyText = Returned d'
        ∧ (∀ c, has_class d' placeholder c = bool_decide (c ∈ ["dh-panel-item"; "empty"]))
        ∧ (closest d RULES.dataBindClass panel = None →
           ∀ viewData, resolveItemData d' placeholder viewData = (NaN, VNull)).
Proof.
  intros placeholder. eexists. split; [reflexivity|].
  set (ph := Dom "div" (makeClassName (Many [TString "panel-item"]) (One (TString "empty")))
                 None None [] (Some emptyText) []).
  set (ul := Dom "ul" (makeClassName (Many [TString "panel-item-list"]) (One TUndefined))
                 None None [] None [ph]).
  set (b := Dom "div" (makeClassName (Many [TString "panel-body"]) (One TUndefined))
                None None [] None [ul]).
  assert (Hph : appendChild d panel b !! placeholder = Some (element_of ph))
    by exact (appendChild_lookup d panel b [0; 0]%nat).
  assert (Hul : appendChild d panel b !! (0%nat :: next_child d panel :: panel)
                = Some (element_of ul))
    by exact (appendChild_lookup d panel b [0%nat]).
  assert (Hbody : appendChild d panel b !! (next_child d panel :: panel)
                  = Some (element_of b))
    by exact (appendChild_lookup d panel b []).
  split.
  - intros c. rewrite (has_class_element _ _ ph c Hph). reflexivity.
  - intros Hnone viewData. unfold resolveItemData.
    assert (closest (appendChild d panel b) RULES.dataBindClass placeholder = None) as ->;
      [|done].
    unfold placeholder. cbn [closest].
    rewrite (has_class_element _ _ ph _ Hph), (has_class_element _ _ ul _ Hul),
      (has_class_element _ _ b _ Hbody).
    assert (Hfree : ∀ t, t ∈ [ph; ul; b] →
              bool_decide (RULES.dataBindClass ∈ class_tokens (className t)) = false).
    { intros t Ht. repeat (apply elem_of_cons in Ht as [->|Ht]); [reflexivity..|].
      by apply elem_of_nil in Ht. }
    rewrite !Hfree by (repeat constructor).
    rewrite <- Hnone. apply closest_ext. intros a Ha. unfold has_class, classes.
    rewrite appendChild_outside; [done|].
    intros Hs. apply suffix_length in Ha, Hs. cbn in Hs. lia.
Qed.





End render_theorems.

Lemma status_free_example c :
  c ∉ ["ok"] →
  PanelRender_body.status_free lower_ascii c second_record.
Proof.
  intros Hc _ _ s Hs. vm_compute in Hs. injection Hs as <-. exact Hc.
Qed.

Lemma renderBody_resolves_witness :
  match PanelRender_body.renderBody lower_ascii ∅ [] example_records (VString "none") with
  | Returned d' =>
      resolveItemData d' [0; 0; 1; 0; 0]%nat example_records
      = (Num 1, second_record)
  | Thrown _ _ => False
  end.
Proof.
  destruct (PanelRender_body.renderBody lower_ascii ∅ [] example_records (VString "none"))
    as [d'|] eqn:Hd'; [|by vm_compute in Hd'].
  assert (Hfree : RULES.dataBindClass ∉ ["ok"]) by by_computation.
  exact (renderBody_resolves lower_ascii ∅ [] example_records (VString "none") d' Hd' 1%nat
           second_record eq_refl (status_free_example RULES.dataBindClass Hfree) [0; 0]%nat).
Defined.

Lemma renderBody_empty_witness :
  ∃ d', PanelRender_body.renderBody lower_ascii ∅ [] [] (VString "none") = Returned d'
        ∧ resolveItemData d' [0; 0; 0]%nat [] = (NaN, VNull).
Proof.
  destruct (renderBody_empty lower_ascii ∅ [] (VString "none")) as (d' & Hd' & _ & Hres).
  exists d'. split; [exact Hd'|]. apply Hres. reflexivity.
Defined.

(** ** Render, bind, click *)




Section click.
Context (matches : document → node → string → bool) (toLowerCase : string → string).


End click.


(** ** Rendering: the body of a list view *)

Lemma clear_lookup d p n :
  clear d p !! n = if decide (contains p n = true ∧ n ≠ p) then None else d !! n.
Proof.
  unfold clear. rewrite map_lookup_filter.
  destruct (decide (contains p n = true ∧ n ≠ p)) as [Hn|Hn].
  - destruct (d !! n) as [e|]; [|done]. cbn. by rewrite option_guard_False by (cbn; tauto).
  - destruct (d !! n) as [e|]; [|done]. cbn. by rewrite option_guard_True by (cbn; tauto).
Qed.

(** Emptying an element forgets what was below it. *)
Lemma clear_agree d1 d2 p :
  (∀ n, ¬ (contains p n = true ∧ n ≠ p) → d1 !! n = d2 !! n) → clear d1 p = clear d2 p.
Proof.
  intros H. apply map_eq. intros n. rewrite !clear_lookup.
  destruct (decide (contains p n = true ∧ n ≠ p)); [done|]. by apply H.
Qed.

Lemma child_toward_Some p n i :
  child_toward p n = Some i → contains p n = true ∧ n ≠ p.
Proof.
  unfold child_toward. intros H.
  destruct (drop (length n - S (length p)) n) as [|j p'] eqn:Hdrop; [done|].
  destruct (decide (p' = p)) as [->|]; [|done].
  pose proof (take_drop (length n - S (length p)) n) as Hn. rewrite Hdrop in Hn.
  split.
  - apply bool_decide_eq_true. exists (take (length n - S (length p)) n ++ [j]).
    by rewrite <- app_assoc.
  - intros ->. apply (f_equal length) in Hn. rewrite length_app in Hn. cbn in Hn. lia.
Qed.

(** An emptied element has no child: the first one appended is child 0. *)
Lemma next_child_clear d p : next_child (clear d p) p = 0%nat.
Proof.
  unfold next_child.
  destruct (omap (child_toward p) (map fst (map_to_list (clear d p)))) as [|i l] eqn:Hl; [done|].
  assert (Hi : i ∈ omap (child_toward p) (map fst (map_to_list (clear d p))))
    by (rewrite Hl; left).
  apply list_elem_of_omap in Hi as (n & Hn & Hto).
  apply list_elem_of_fmap in Hn as ([n' e] & -> & He). cbn in Hto.
  apply elem_of_map_to_list in He. rewrite clear_lookup in He.
  apply child_toward_Some in Hto. by rewrite decide_True in He.
Qed.

Lemma strictly_below_child i p n :
  (i :: p) `suffix_of` n → contains p n = true ∧ n ≠ p.
Proof.
  intros [pre ->]. split.
  - apply bool_decide_eq_true. exists (pre ++ [i]). by rewrite <- app_assoc.
  - intros H. apply (f_equal length) in H. rewrite length_app in H. cbn in H. lia.
Qed.

(** An item whose element carries the data-bind class and its index,
    and holds no other element of that class, gives its index and record
    to every node at or below it. *)
Lemma item_resolves d li el (k : nat) item viewData :
  (∀ rel, d !! (rev rel ++ li) = element_of <$> descend el rel) →
  RULES.dataBindClass ∈ class_tokens (className el) →
  ui_index el = Some (Num (Z.of_nat k)) →
  forallb (no_class RULES.dataBindClass) (children el) = true →
  viewData !! k = Some item →
  ∀ below, resolveItemData d (below ++ li) viewData = (Num (Z.of_nat k), item).
Proof.
  intros Hnode Hcls Hui Hfree Hk below.
  pose proof (Hnode []) as Hroot. cbn [rev app descend fmap option_fmap option_map] in Hroot.
  rewrite (resolveItemData_found _ _ li (element_of el) viewData); [| |exact Hroot].
  - cbn [element_of _uiIndex]. rewrite Hui.
    f_equal. unfold at_index. destruct (Z.ltb_spec (Z.of_nat k) 0); [lia|].
    by rewrite Nat2Z.id, Hk.
  - apply closest_item.
    + rewrite (has_class_element _ _ el) by exact Hroot. by apply bool_decide_eq_true.
    + intros b' Hne _. specialize (Hnode (rev b')). rewrite rev_involutive in Hnode.
      destruct (descend el (rev b')) as [x|] eqn:Hx.
      * rewrite (has_class_element _ _ x) by exact Hnode. apply bool_decide_eq_false.
        destruct (rev b') as [|i rel] eqn:Hrev.
        { rewrite <- (rev_involutive b'), Hrev in Hne. done. }
        cbn [descend] in Hx. destruct (children el !! i) as [ch|] eqn:Hch; [|done].
        cbn in Hx. apply (no_class_descend _ rel ch); [|done].
        rewrite forallb_forall in Hfree. apply Hfree, list_elem_of_In.
        by eapply list_elem_of_lookup_2.
      * apply has_class_absent. exact Hnode.
Qed.

Section list_facts.
Context (toLowerCase : string → string) (iconEngine : option (value → option subtree)).

Lemma listView_status_className lower :
  makeClassName (Many [TString "listView-right"]) (Many [TString "status-badge"; TString lower])
  = if String.eqb lower "" then "dh-listView-right status-badge"
    else "dh-listView-right" +:+ String space ("status-badge" +:+ String space lower).
Proof.
  unfold makeClassName. cbn [to_array].
  rewrite !(filter_cons_True _ (TString "listView-right")) by done.
  rewrite !(filter_cons_True _ (TString "status-badge")) by done.
  rewrite !filter_nil.
  destruct (String.eqb lower "") eqn:Hlow.
  - rewrite filter_cons_False by (cbn [token_truthy]; by rewrite Hlow). reflexivity.
  - rewrite filter_cons_True by (cbn [token_truthy]; by rewrite Hlow). reflexivity.
Qed.

Lemma listView_createStatus_classes status el :
  ListView_body.createStatus toLowerCase status = Returned el →
  ∃ s, or_else status (VString "") = VString s
       ∧ class_tokens (className el)
         = ["dh-listView-right"; "status-badge"] ++ class_tokens (toLowerCase s)
       ∧ children el = [].
Proof.
  unfold ListView_body.createStatus. destruct (or_else status (VString "")) as [| | | |s| | |];
    try done.
  intros [= <-]. exists s. split; [done|]. split; [|done]. cbn [className].
  rewrite listView_status_className. destruct (String.eqb (toLowerCase s) "") eqn:Hlow.
  - apply String.eqb_eq in Hlow. rewrite Hlow. reflexivity.
  - unfold class_tokens.
    rewrite (class_tokens_word space _ "dh-listView-right" "") by (done || by repeat constructor).
    rewrite (class_tokens_word space _ "status-badge" "") by (done || by repeat constructor).
    reflexivity.
Qed.

Lemma listView_renderItem_shape index item li :
  ListView_body.renderItem toLowerCase iconEngine index item = Returned li →
  class_tokens (className li) = ["dh-listView-item"; RULES.dataBindClass]
  ∧ ui_index li = Some (Num (Z.of_nat index))
  ∧ data_index li = Some (pretty index)
  ∧ ∀ c, c ∉ ListView_body.inner_classes →
         ListView_body.status_free toLowerCase c item →
         ListView_body.icon_free iconEngine c →
         forallb (no_class c) (children li) = true.
Proof.
  unfold ListView_body.renderItem. intros Hli.
  destruct (property item "icon") as [icon|] eqn:Hicon; [|done]. cbn [outcome_bind] in Hli.
  destruct (if truthy (get item "rightType")
            then ListView_body.renderRightComponent toLowerCase item
            else Returned None) as [right|] eqn:Hr; [|done].
  cbn [outcome_bind] in Hli. injection Hli as <-.
  cbn [className ui_index data_index children].
  split; [reflexivity|]. split; [done|]. split; [done|]. intros c Hc Hok Hengine.
  assert (Hfixed : ∀ l, l ⊆ ListView_body.inner_classes → bool_decide (c ∈ l) = false).
  { intros l Hl. apply bool_decide_eq_false. intros Hin. by apply Hc, Hl. }
  assert (Hright : forallb (no_class c) (option_list right) = true).
  { destruct (truthy (get item "rightType")) eqn:Htr; [|by injection Hr as <-].
    unfold ListView_body.renderRightComponent in Hr.
    destruct (is_string (get item "rightType") "status") eqn:Hst.
    - destruct (ListView_body.createStatus toLowerCase (get item "status")) as [el|] eqn:Hel;
        [|done].
      injection Hr as <-.
      destruct (listView_createStatus_classes _ _ Hel) as (s & Hs & Hcls & Hch).
      change (option_list (Some el)) with [el]. cbn [forallb]. rewrite andb_true_r.
      destruct el as [tag cls di ui attrs text cs]. cbn [className children] in *.
      subst cs. rewrite no_class_node. cbn [forallb]. rewrite andb_true_r.
      apply negb_true_iff, bool_decide_eq_false. rewrite Hcls.
      intros [Hin|Hin]%elem_of_app.
      + apply Hc. unfold ListView_body.inner_classes. set_solver.
      + by apply (Hok Htr Hst s).
    - destruct (is_string (get item "rightType") "ip"); injection Hr as <-; [|done].
      change (option_list (Some ?x)) with [x]. unfold ListView_body.createIp.
      cbn [forallb]. rewrite no_class_node. cbn [forallb].
      change (class_tokens _) with ["dh-listView-right"; "ip"].
      rewrite Hfixed; [done|]. unfold ListView_body.inner_classes. set_solver. }
  rewrite !forallb_app, Hright, andb_true_r. apply andb_true_iff. split.
  - destruct (truthy icon); [|done]. unfold ListView_body.renderIcon.
    destruct iconEngine as [getIcon|] eqn:Hengine'; [|done].
    change (option_list (Some ?x)) with [x].
    cbn [forallb]. rewrite no_class_node.
    change (class_tokens (makeClassName _ _)) with ["dh-listView-item-icon"].
    rewrite Hfixed by (unfold ListView_body.inner_classes; set_solver).
    rewrite andb_true_r. cbn [negb andb].
    destruct (getIcon icon) as [el|] eqn:Hel; [|done].
    change (option_list (Some el)) with [el]. cbn [forallb]. rewrite andb_true_r.
    by apply (Hengine getIcon icon).
  - destruct (truthy (get item "title")); [|done]. unfold ListView_body.renderContent.
    cbn [forallb]. rewrite !no_class_node. cbn [forallb]. rewrite !no_class_node.
    change (class_tokens (makeClassName (Many [TString "listView-item-content"]) _))
      with ["dh-listView-item-content"].
    change (class_tokens (makeClassName (Many [TString "listView-item-title"]) _))
      with ["dh-listView-item-title"].
    rewrite !Hfixed by (unfold ListView_body.inner_classes; set_solver).
    destruct (truthy (get item "subText")); [|done].
    cbn [forallb]. rewrite !no_class_node. cbn [forallb].
    change (class_tokens (makeClassName (Many [TString "listView-item-subText"]) _))
      with ["dh-listView-item-subText"].
    rewrite !Hfixed by (unfold ListView_body.inner_classes; set_solver). done.
Qed.



(** X20.  A draw forgets the body it finds.  Whatever an earlier
    [renderBody] left in the body element (items of other data, or
    nothing after a throw), the next [renderBody] gives the document and
    the outcome it would have given without it: [redraw()] is idempotent,
    and no item of old data survives [setData]. *)
Theorem ListView_renderBody_forgets d bodyEl old oldText viewData emptyText :
  ListView_body.renderBody toLowerCase iconEngine
    (ListView_body.renderBody toLowerCase iconEngine d bodyEl old oldText).1
    bodyEl viewData emptyText
  = ListView_body.renderBody toLowerCase iconEngine d bodyEl viewData emptyText.
Proof.
  assert (Hclear : clear (ListView_body.renderBody toLowerCase iconEngine d bodyEl old oldText).1
                         bodyEl = clear d bodyEl).
  { unfold ListView_body.renderBody.
    destruct (ListView_body.item_list toLowerCase iconEngine old oldText) as [ul|kind message];
      cbn [fst]; apply map_eq; intros n; rewrite !clear_lookup;
      destruct (decide (contains bodyEl n = true ∧ n ≠ bodyEl)) as [Hn|Hn]; try done.
    rewrite appendChild_outside; [by rewrite clear_lookup, decide_False|].
    by intros ?%strictly_below_child. }
  unfold ListView_body.renderBody at 1. rewrite Hclear. reflexivity.
Qed.

(** X21.  After a [renderBody] that returns, the list is child 0 of the
    body element and the item at index [k] is its child [k]; every node
    at or below that item resolves to index [k] and the record at [k],
    provided neither the item's status in lower case nor an element of
    the icon engine spells the data-bind class. *)
Theorem ListView_renderBody_resolves d bodyEl viewData emptyText d' :
  ListView_body.renderBody toLowerCase iconEngine d bodyEl viewData emptyText
  = (d', Returned tt) →
  ListView_body.icon_free iconEngine RULES.dataBindClass →
  ∀ k item, viewData !! k = Some item →
    ListView_body.status_free toLowerCase RULES.dataBindClass item →
    (∀ c, has_class d' (k :: 0%nat :: bodyEl) c
          = bool_decide (c ∈ ["dh-listView-item"; RULES.dataBindClass]))
    ∧ ∀ below, resolveItemData d' (below ++ k :: 0%nat :: bodyEl) viewData
               = (Num (Z.of_nat k), item).
Proof.
  unfold ListView_body.renderBody, ListView_body.item_list. intros Hd' Hengine k item Hk Hok.
  destruct viewData as [|item0 viewData0] eqn:Hview; [done|]. rewrite <- Hview in *.
  assert (Hitems : ∃ items,
             for_each (ListView_body.renderItem toLowerCase iconEngine) 0 viewData
             = Returned items ∧ d' = appendChild (clear d bodyEl) bodyEl
                 (Dom "ul" (makeClassName (Many [TString "listView-item-list"]) (One TUndefined))
                      None None [] None items)).
  { rewrite Hview in *.
    destruct (for_each (ListView_body.renderItem toLowerCase iconEngine) 0 (item0 :: viewData0))
      as [items|]; [|done].
    cbn [outcome_bind] in Hd'. injection Hd' as <-. by eexists. }
  destruct Hitems as (items & Hitems & ->).
  set (ul := Dom "ul" _ None None [] None items).
  destruct (for_each_lookup _ _ _ _ Hitems k item Hk) as (li & Hli & Hrender).
  cbn [Nat.add] in Hrender.
  destruct (listView_renderItem_shape k item li Hrender) as (Hcls & Hui & _ & Hfree).
  specialize (Hfree RULES.dataBindClass ltac:(by_computation) Hok Hengine).
  assert (Hnode : ∀ rel,
             appendChild (clear d bodyEl) bodyEl ul !! (rev rel ++ k :: 0%nat :: bodyEl)
             = element_of <$> descend li rel).
  { intros rel.
    replace (rev rel ++ k :: 0%nat :: bodyEl)
      with (rev (k :: rel) ++ next_child (clear d bodyEl) bodyEl :: bodyEl)
      by (rewrite next_child_clear; cbn [rev]; by rewrite <- !app_assoc).
    rewrite appendChild_lookup. cbn [descend ul children]. by rewrite Hli. }
  split.
  - intros c. rewrite (has_class_element _ _ li c); [by rewrite Hcls|]. exact (Hnode []).
  - apply (item_resolves _ _ li); try done. rewrite Hcls. set_solver.
Qed.


End list_facts.

Lemma ListView_renderBody_resolves_witness :
  ∃ d', ListView_body.renderBody lower_ascii (Some lucide_getIcon) ∅ [0%nat] example_records
          (VString "none") = (d', Returned tt)
        ∧ resolveItemData d' [0; 0; 1; 0; 0]%nat example_records = (Num 1, second_record).
Proof.
  destruct (ListView_body.renderBody lower_ascii (Some lucide_getIcon) ∅ [0%nat] example_records
              (VString "none")) as [d' [[]|]] eqn:Hd'; [|by vm_compute in Hd'].
  exists d'. split; [done|].
  assert (Hfree : RULES.dataBindClass ∉ ["ok"]) by by_computation.
  assert (Hicon : ListView_body.icon_free (Some lucide_getIcon) RULES.dataBindClass).
  { intros getIcon icon el [= <-] [= <-]. by_computation. }
  assert (Hstatus : ListView_body.status_free lower_ascii RULES.dataBindClass second_record).
  { intros _ _ s Hs. vm_compute in Hs. injection Hs as <-. exact Hfree. }
  exact (proj2 (ListView_renderBody_resolves lower_ascii (Some lucide_getIcon) ∅ [0%nat]
                  example_records (VString "none") d' Hd' Hicon 1%nat second_record eq_refl
                  Hstatus) [0; 0]%nat).
Defined.
